(** * ntfs-sanitizer: a shallow embedding of [sanitize_ntfs_names]

    The program walks a directory tree bottom-up and renames every entry
    whose name is not acceptable on NTFS.  This file embeds

    - the Python string and [os.path] primitives the function calls,
    - the name correction of lines 52-85 of [ntfs-sanitizer.py],
    - the collision loop of lines 89-95,
    - the loop body and the [os.walk(topdown=False)] traversal over a
      directory tree,

    and then states and proves the properties of the specification. *)

From Stdlib Require Import Ascii String Decimal DecimalString.
From Stdlib Require Import List ZArith NArith Lia Bool.
From Stdlib Require Import Permutation.
Import ListNotations.

(** ** Python strings *)

(** A Python [str] is a sequence of Unicode code points. *)
Definition char := N.
Definition text := list char.

Definition str (s : string) : text :=
  map N_of_ascii (list_ascii_of_string s).
Arguments str s%_string.

Definition space : char := 32%N.
Definition dot : char := 46%N.
Definition slash : char := 47%N.
Definition underscore : char := 95%N.
Definition newline : char := 10%N.

Module Py.

(** [len(s)] *)
Definition len (s : text) : Z := Z.of_nat (length s).

(** [a == b] on strings *)
Fixpoint eqb (a b : text) : bool :=
  match a, b with
  | [], [] => true
  | x :: a', y :: b' => N.eqb x y && eqb a' b'
  | _, _ => false
  end.

(** [s[:k]]; a negative [k] counts from the end. *)
Definition slice_to (s : text) (k : Z) : text :=
  if (k <? 0)%Z then firstn (length s - Z.to_nat (- k)) s
  else firstn (Z.to_nat k) s.

(** [s[i:j]] for [0 <= i]. *)
Definition slice (s : text) (i j : Z) : text :=
  firstn (Z.to_nat (j - i)) (skipn (Z.to_nat i) s).

(** [s.rfind(c)]: index of the last occurrence, [-1] when absent. *)
Fixpoint rfind (c : char) (s : text) : Z :=
  match s with
  | [] => (-1)%Z
  | x :: r =>
      let i := rfind c r in
      if (0 <=? i)%Z then (i + 1)%Z
      else if N.eqb x c then 0%Z else (-1)%Z
  end.

(** [s.strip(' .')] *)
Definition strip_char (c : char) : bool := N.eqb c space || N.eqb c dot.

Fixpoint lstrip (s : text) : text :=
  match s with
  | [] => []
  | c :: r => if strip_char c then lstrip r else s
  end.

Fixpoint rstrip (s : text) : text :=
  match s with
  | [] => []
  | c :: r =>
      match rstrip r with
      | [] => if strip_char c then [] else [c]
      | r' => c :: r'
      end
  end.

Definition strip (s : text) : text := rstrip (lstrip s).

(** [str(n)], the value an f-string inserts for a non-negative integer:
    its decimal digits. *)
Definition format (n : nat) : text :=
  str (NilZero.string_of_uint (Nat.to_uint n)).

(** [os.path.join(a, b)] of [posixpath]. *)
Definition ends_with_sep (a : text) : bool :=
  match rev a with
  | c :: _ => N.eqb c slash
  | [] => false
  end.

Definition join (a b : text) : text :=
  match b with
  | c :: _ =>
      if N.eqb c slash then b
      else if match a with [] => true | _ => ends_with_sep a end then a ++ b
      else a ++ slash :: b
  | [] =>
      if match a with [] => true | _ => ends_with_sep a end then a ++ b
      else a ++ slash :: b
  end.

(** [os.path.basename(p)]: [p[p.rfind('/') + 1:]]. *)
Definition basename (p : text) : text :=
  skipn (Z.to_nat (rfind slash p + 1)) p.

(** [os.path.splitext(p)], that is [genericpath._splitext(p, '/', None, '.')]:
    split at the last dot when it comes after the last separator and some
    character between the two is not a dot. *)
Definition splitext (p : text) : text * text :=
  let sepIndex := rfind slash p in
  let dotIndex := rfind dot p in
  if (sepIndex <? dotIndex)%Z then
    if existsb (fun c => negb (N.eqb c dot)) (slice p (sepIndex + 1) dotIndex)
    then (firstn (Z.to_nat dotIndex) p, skipn (Z.to_nat dotIndex) p)
    else (p, [])
  else (p, []).

End Py.

(** ** The name correction (lines 15-17 and 52-85) *)

(** [forbidden_chars]: the class of the nine characters
    less-than, greater-than, colon, double quote (34), slash, backslash,
    bar, question mark and star, and of the control characters 0 to 31. *)
Definition forbidden_chars : text :=
  str "<>:" ++ [34%N] ++ str "/\|?*".

Definition is_forbidden (c : char) : bool :=
  N.leb c 31 || existsb (N.eqb c) forbidden_chars.

(** [re.search(forbidden_chars, name)] as a truth value. *)
Definition has_invalid (name : text) : bool := existsb is_forbidden name.

(** [name.strip(' .') != name] *)
Definition has_trailing (name : text) : bool :=
  negb (Py.eqb (Py.strip name) name).

(** [reserved_pattern]: anchored at the start, one of CON, PRN, AUX, NUL,
    COM[1-9], LPT[1-9]; then optionally a dot followed by any characters;
    then the end anchor.  It is matched with [re.IGNORECASE].  None of the
    letters of the pattern has a non-ASCII case variant, so case folding is
    the ASCII one. *)
Definition lower (c : char) : char :=
  if N.leb 65 c && N.leb c 90 then (c + 32)%N else c.

(** A literal word, case-insensitively; returns what is left of the input. *)
Fixpoint literal_ci (w s : text) : option text :=
  match w, s with
  | [], _ => Some s
  | p :: w', c :: s' =>
      if N.eqb (lower c) (lower p) then literal_ci w' s' else None
  | _ :: _, [] => None
  end.

(** The class [[1-9]]. *)
Definition digit_1_9 (s : text) : option text :=
  match s with
  | c :: s' => if N.leb 49 c && N.leb c 57 then Some s' else None
  | [] => None
  end.

(** [$] without [re.MULTILINE]: the end of the string, or just before a
    newline that ends the string. *)
Definition at_end (s : text) : bool :=
  match s with
  | [] => true
  | [c] => N.eqb c newline
  | _ => false
  end.

(** Any characters, then the end anchor; the wildcard matches anything but
    a newline. *)
Fixpoint dot_star_end (s : text) : bool :=
  at_end s ||
  match s with
  | c :: r => negb (N.eqb c newline) && dot_star_end r
  | [] => false
  end.

(** The optional group (a dot, then any characters) and the end anchor. *)
Definition opt_ext_end (s : text) : bool :=
  at_end s ||
  match s with
  | c :: r => N.eqb c dot && dot_star_end r
  | [] => false
  end.

Definition device_word (w : string) (s : text) : option text :=
  literal_ci (str w) s.

Definition device_port (w : string) (s : text) : option text :=
  match literal_ci (str w) s with
  | Some r => digit_1_9 r
  | None => None
  end.
Arguments device_word w%_string s.
Arguments device_port w%_string s.

(** The alternatives of the first group, in the order of the pattern. *)
Definition reserved_heads : list (text -> option text) :=
  [ device_word "CON"; device_word "PRN"; device_word "AUX";
    device_word "NUL"; device_port "COM"; device_port "LPT" ].

(** [re.match(reserved_pattern, name, re.IGNORECASE)] as a truth value. *)
Definition is_reserved (name : text) : bool :=
  existsb (fun head => match head name with
                       | Some r => opt_ext_end r
                       | None => false
                       end) reserved_heads.

(** [re.sub(forbidden_chars, '_', new_name)] *)
Definition re_sub_forbidden (s : text) : text :=
  map (fun c => if is_forbidden c then underscore else c) s.

Definition unnamed : text := str "unnamed".

(** Lines 66-67. *)
Definition replace_invalid (name : text) : text :=
  if has_invalid name then re_sub_forbidden name else name.

(** Lines 70-74. *)
Definition remove_trailing (name new_name : text) : text :=
  if has_trailing name then
    match Py.strip new_name with
    | [] => unnamed
    | t => t
    end
  else new_name.

(** Lines 77-78. *)
Definition handle_reserved (name new_name : text) : text :=
  if is_reserved name then underscore :: new_name else new_name.

(** Lines 81-85. *)
Definition limit_length (max_length : Z) (new_name : text) : text :=
  if (max_length <? Py.len new_name)%Z then
    let (base, ext) := Py.splitext new_name in
    let truncate_length := (max_length - Py.len ext)%Z in
    Py.slice_to base truncate_length ++ ext
  else new_name.

(** The name as it stands after line 78, before the length is enforced. *)
Definition fixed_name (name : text) : text :=
  handle_reserved name (remove_trailing name (replace_invalid name)).

(** The value of [new_name] at line 87 for a name that passed line 61. *)
Definition new_name_of (max_length : Z) (name : text) : text :=
  limit_length max_length (fixed_name name).

(** Line 61. *)
Definition needs_fix (name : text) : bool :=
  has_invalid name || has_trailing name || is_reserved name.

(** The corrected name of an entry that is not too long: [new_name] when
    line 61 fires, the name itself otherwise. *)
Definition sanitized (max_length : Z) (name : text) : text :=
  if needs_fix name then new_name_of max_length name else name.

(** ** The file system and the walk (lines 27-132) *)

(** A directory tree: regular files and directories, each directory with
    its entries in the order [os.scandir] lists them.  Symbolic links,
    permissions and the other attributes of an entry are left out; what the
    host refuses is the oracle [denied] below. *)
#[local] Unset Elimination Schemes.
Inductive node : Type :=
| File (content : list Byte.byte)
| Dir (entries : list (text * node)).
#[local] Set Elimination Schemes.

Definition listing := list (text * node).

Definition is_dir (t : node) : bool :=
  match t with
  | Dir _ => true
  | File _ => false
  end.

(** The [dirs] and [files] of a tuple yielded by [os.walk]. *)
Definition dirs_of (es : listing) : list text :=
  map fst (filter (fun e => is_dir (snd e)) es).

Definition files_of (es : listing) : list text :=
  map fst (filter (fun e => negb (is_dir (snd e))) es).

(** [os.path.exists(os.path.join(root, new_name))] for a [new_name] that is
    a single path component: an entry of that name is in the directory.
    The names the collision loop tries hold no separator (lemma
    [resolve_collision_safe] below). *)
Definition path_exists (es : listing) (new_name : text) : bool :=
  existsb (fun e => Py.eqb (fst e) new_name) es.

(** Moving an entry of the directory to a new name; [None] is the [OSError]
    raised for a source that is not there. *)
Fixpoint rename_entry (old new : text) (es : listing) : option listing :=
  match es with
  | [] => None
  | (n, t) :: r =>
      if Py.eqb n old then Some ((new, t) :: r)
      else match rename_entry old new r with
           | Some r' => Some ((n, t) :: r')
           | None => None
           end
  end.

(** The three counters of lines 27-29. *)
Record counters : Type := Counters {
  change_count : nat;
  skipped_count : nat;
  error_count : nat
}.

(** What the run prints for an entry. *)
Inductive event : Type :=
| TooLongWarning (name : text)                             (* line 47 *)
| ChangeReport (applied : bool) (root name new_name : text)
               (invalid trailing reserved : bool)          (* lines 104-120 *)
| RenameError (name : text).                               (* line 128 *)

(** The state threaded through the walk: the counters, the output so far,
    and the pairs [(root, name)] the inner loop has taken so far. *)
Record run_state : Type := RunState {
  counts : counters;
  output : list event;
  visited : list (text * text)
}.

Definition initial_state : run_state :=
  RunState (Counters 0 0 0) [] [].

Definition note_visit (root name : text) (s : run_state) : run_state :=
  RunState (counts s) (output s) (visited s ++ [(root, name)]).

Definition emit (e : event) (s : run_state) : run_state :=
  RunState (counts s) (output s ++ [e]) (visited s).

Definition count_change (s : run_state) : run_state :=
  let c := counts s in
  RunState (Counters (S (change_count c)) (skipped_count c) (error_count c))
           (output s) (visited s).

Definition count_skipped (s : run_state) : run_state :=
  let c := counts s in
  RunState (Counters (change_count c) (S (skipped_count c)) (error_count c))
           (output s) (visited s).

Definition count_error (s : run_state) : run_state :=
  let c := counts s in
  RunState (Counters (change_count c) (skipped_count c) (S (error_count c)))
           (output s) (visited s).

(** The [while] loop of lines 92-95.  [taken] is [os.path.exists] on the
    directory; [None] is a loop that has not ended within [fuel] rounds. *)
Fixpoint collision_loop (fuel : nat) (taken : text -> bool)
         (ext new_name : text) (counter : nat) : option text :=
  match fuel with
  | O => None
  | S fuel' =>
      if taken new_name then
        collision_loop fuel' taken ext
          (fst (Py.splitext new_name) ++ underscore :: Py.format counter ++ ext)
          (S counter)
      else Some new_name
  end.

(** The traversal of the entries of a directory, in listing order: [visit]
    walks one sub-tree and hands the state on. *)
Definition descend (visit : text -> node -> run_state ->
                            option (node * run_state))
  : listing -> run_state -> option (listing * run_state) :=
  fix go (l : listing) (s : run_state) {struct l} :=
    match l with
    | [] => Some ([], s)
    | (n, c) :: l' =>
        match visit n c s with
        | None => None
        | Some (c', s') =>
            match go l' s' with
            | None => None
            | Some (l'', s'') => Some ((n, c') :: l'', s'')
            end
        end
    end.

Section Walk.

(** [os.path.basename(__file__)] *)
Variable script_name : text.
(** The renames the host refuses with an [OSError] (permissions, names
    the host file system rejects). *)
Variable denied : text -> text -> bool.
Variable dry_run : bool.
Variable max_length : Z.

(** [os.rename(old_path, new_path)] inside the directory [root]. *)
Definition os_rename (root name new_name : text) (es : listing)
  : option listing :=
  if denied (Py.join root name) (Py.join root new_name) then None
  else rename_entry name new_name es.

(** Lines 89-95: the name the collision loop ends with.  A directory of
    [n] entries is given [n + 1] rounds. *)
Definition resolve_collision (root new_name : text) (es : listing)
  : option text :=
  let new_path := Py.join root new_name in
  let ext := snd (Py.splitext new_path) in
  collision_loop (S (length es)) (path_exists es) ext new_name 1.

(** Lines 101-132 for an entry that is to be renamed to [new_name]. *)
Definition report_and_rename (root name new_name : text)
           (w : listing * run_state) : listing * run_state :=
  let (es, s) := w in
  let s := emit (ChangeReport (negb dry_run) root name new_name
                   (has_invalid name) (has_trailing name) (is_reserved name))
                s in
  if dry_run then (es, count_change s)
  else match os_rename root name new_name es with
       | Some es' => (es', count_change s)
       | None => (es, count_error (emit (RenameError name) s))
       end.

(** The body of the inner loop, lines 39-132, for one [name] of the
    directory [root] whose entries are [es]. *)
Definition process_entry (root name : text) (w : listing * run_state)
  : option (listing * run_state) :=
  let (es, s) := w in
  let s := note_visit root name s in
  if Py.eqb name script_name then Some (es, s)
  else
    let old_path := Py.join root name in
    if (max_length <? Py.len (Py.basename old_path))%Z then
      Some (es, count_skipped (emit (TooLongWarning name) s))
    else if needs_fix name then
      match resolve_collision root (new_name_of max_length name) es with
      | None => None
      | Some new_name =>
          if Py.eqb new_name name then Some (es, s)
          else Some (report_and_rename root name new_name (es, s))
      end
    else Some (es, s).

(** [for name in dirs + files] *)
Fixpoint process_entries (root : text) (names : list text)
         (w : listing * run_state) : option (listing * run_state) :=
  match names with
  | [] => Some w
  | name :: rest =>
      match process_entry root name w with
      | Some w' => process_entries root rest w'
      | None => None
      end
  end.

(** [os.walk(root, topdown=False)] driving the inner loop: the directory
    is listed, every sub-directory is walked in listing order, and only
    then is the tuple [(root, dirs, files)] handed to the loop body. *)
Fixpoint walk (root : text) (t : node) (s : run_state) {struct t}
  : option (node * run_state) :=
  match t with
  | File _ => Some (t, s)
  | Dir es =>
      let dirs := dirs_of es in
      let files := files_of es in
      match descend (fun n c => walk (Py.join root n) c) es s with
      | None => None
      | Some w =>
          match process_entries root (dirs ++ files) w with
          | None => None
          | Some (es', s') => Some (Dir es', s')
          end
      end
  end.

(** The run on the tree found at [root_dir]. *)
Definition sanitize_ntfs_names (root_dir : text) (t : node)
  : option (node * run_state) :=
  walk root_dir t initial_state.

End Walk.

Definition the_script : text := str "ntfs-sanitizer.py".
Definition allow_all (old new : text) : bool := false.
Definition deny_all (old new : text) : bool := true.

(** The order in which a bottom-up walk takes the entries of a tree: those
    of every sub-directory, in listing order, and then those of the
    directory itself, directories first.  The paths are those of the tree
    as given. *)
Fixpoint postorder (root : text) (t : node) {struct t} : list (text * text) :=
  match t with
  | File _ => []
  | Dir es =>
      flat_map (fun e => postorder (Py.join root (fst e)) (snd e)) es
      ++ map (pair root) (dirs_of es ++ files_of es)
  end.

(** What a run reports about the entries, apart from the mode it ran in
    and the names it chose. *)
Inductive finding : Type :=
| SkippedTooLong (name : text)
| Flagged (root name : text) (invalid trailing reserved : bool).

Definition digest (e : event) : list finding :=
  match e with
  | TooLongWarning name => [SkippedTooLong name]
  | ChangeReport _ root name _ i t r => [Flagged root name i t r]
  | RenameError _ => []
  end.

Definition findings (out : list event) : list finding :=
  flat_map digest out.

(** The entries a run reported a change for, in the order of the reports. *)
Definition reported (out : list event) : list (text * text) :=
  flat_map (fun e => match e with
                     | ChangeReport _ root name _ _ _ _ => [(root, name)]
                     | _ => []
                     end) out.

(** ** Notions used in the statements and proofs *)

Definition not_dot (c : char) : bool := negb (N.eqb c dot).

(** The shapes a result of [splitext] can have. *)
Inductive split_shape (p : text) : text * text -> Prop :=
| NoSplit : split_shape p (p, [])
| Split a e : p = a ++ dot :: e -> ~ In dot e -> ~ In slash e ->
              existsb not_dot (Py.basename a) = true ->
              split_shape p (a, dot :: e).

(** An extension is empty or a dot followed by characters that are neither
    dots nor separators. *)
Definition ext_shape (ext : text) : Prop :=
  ext = [] \/ exists e, ext = dot :: e /\ ~ In dot e /\ ~ In slash e.

Definition is_digit (c : char) : bool := N.leb 48 c && N.leb c 57.

(** The name line 93 builds from the current one. *)
Definition next_name (ext new_name : text) (counter : nat) : text :=
  fst (Py.splitext new_name) ++ underscore :: Py.format counter ++ ext.

Definition at_least (n : nat) (x : text) : bool := n <=? length x.

(** A name with clean edges: not empty, and neither its first nor its last
    character is a space or a dot. *)
Definition clean_edges (s : text) : Prop :=
  s <> [] /\ Py.strip_char (hd dot s) = false
  /\ Py.strip_char (last s dot) = false.

(** Letters and digits. *)
Definition alnum (c : char) : bool :=
  (N.leb 48 c && N.leb c 57) || (N.leb 65 c && N.leb c 90)
  || (N.leb 97 c && N.leb c 122).

Definition all_safe (s : text) : Prop :=
  Forall (fun c => is_forbidden c = false) s.

Definition all_plain (s : text) : Prop :=
  Forall (fun c => Py.strip_char c = false) s.

Definition all_alnum (s : text) : Prop :=
  Forall (fun c => alnum c = true) s.

Definition trimmed (name : text) : text :=
  remove_trailing name (replace_invalid name).

(** What may follow the device name once the name is trimmed. *)
Definition tail_shape (t : text) : Prop :=
  t = [] \/ t = [underscore] \/ exists r, t = dot :: r.

(** ** Induction on directory trees *)

Section NodeInduction.

Variable P : node -> Prop.
Hypothesis P_file : forall content, P (File content).
Hypothesis P_dir : forall es, Forall (fun e => P (snd e)) es -> P (Dir es).

Fixpoint node_induction (t : node) : P t :=
  match t with
  | File content => P_file content
  | Dir es =>
      P_dir es
        ((fix all (l : listing) : Forall (fun e => P (snd e)) l :=
            match l with
            | [] => Forall_nil _
            | (n, c) :: l' =>
                Forall_cons (n, c) (node_induction c) (all l')
            end) es)
  end.

End NodeInduction.

(** ** Sub-sequences *)

Inductive subseq {A : Type} : list A -> list A -> Prop :=
| subseq_nil : subseq [] []
| subseq_skip x a b : subseq a b -> subseq a (x :: b)
| subseq_take x a b : subseq a b -> subseq (x :: a) (x :: b).

(** Two states agree when they count the same skips, account for the same
    number of entries to rename, and have the same findings. *)
Definition agree (d l : run_state) : Prop :=
  skipped_count (counts d) = skipped_count (counts l)
  /\ change_count (counts d) + error_count (counts d)
     = change_count (counts l) + error_count (counts l)
  /\ findings (output d) = findings (output l).

(** ** Concrete directories *)

Definition dir_collision : listing :=
  [ (str "a_b.txt", File []); (str "a_b_1.txt", File []);
    (str "a:b.txt", File []) ].

Definition dir_truncated : listing :=
  [ (str "_co.txt", File []); (str "con.txt", File []) ].

Definition tree_nested : node :=
  Dir [ (str "d:x", Dir [ (str "f?y", File []) ]) ].

Definition dir_script : listing := [ (the_script, File []) ].

Definition dir_long : listing := [ (str "abcdefgh", File []) ].

(** ** The reserved names, said without the pattern *)

(** The device names, in lower case. *)
Definition device_names : list text :=
  [ str "con"; str "prn"; str "aux"; str "nul";
    str "com1"; str "com2"; str "com3"; str "com4"; str "com5";
    str "com6"; str "com7"; str "com8"; str "com9";
    str "lpt1"; str "lpt2"; str "lpt3"; str "lpt4"; str "lpt5";
    str "lpt6"; str "lpt7"; str "lpt8"; str "lpt9" ].

(** Nothing, or any characters on one line, up to the end of the name or to
    a newline that ends it. *)
Definition one_line (s : text) : Prop :=
  exists e t, s = e ++ t /\ ~ In newline e /\ (t = [] \/ t = [newline]).

(** What may follow a device name: nothing, a final newline, or a dot and
    one line. *)
Definition device_tail (rest : text) : Prop :=
  rest = [] \/ rest = [newline] \/ exists r, rest = dot :: r /\ one_line r.

(** ** Notions for the run as a whole *)

Definition is_warning (e : event) : bool :=
  match e with
  | TooLongWarning _ => true
  | _ => false
  end.

Definition is_report (e : event) : bool :=
  match e with
  | ChangeReport _ _ _ _ _ _ _ => true
  | _ => false
  end.

Definition is_failure (e : event) : bool :=
  match e with
  | RenameError _ => true
  | _ => false
  end.

(** The test of line 46 on the entry [name] of [root]. *)
Definition too_long (max_length : Z) (root name : text) : bool :=
  (max_length <? Py.len (Py.basename (Py.join root name)))%Z.

(** The entries the loop body skips at line 49. *)
Definition skipped_entry (script_name : text) (max_length : Z)
           (e : text * text) : bool :=
  negb (Py.eqb (snd e) script_name) && too_long max_length (fst e) (snd e).

(** The entries the loop body takes up at line 61. *)
Definition flagged_entry (script_name : text) (max_length : Z)
           (e : text * text) : bool :=
  negb (Py.eqb (snd e) script_name)
  && negb (too_long max_length (fst e) (snd e))
  && needs_fix (snd e).



(** [Q] holds of the names of every directory of the tree. *)
Fixpoint all_dirs (Q : list text -> Prop) (t : node) {struct t} : Prop :=
  match t with
  | File _ => True
  | Dir es =>
      Q (map fst es)
      /\ (fix all (l : listing) : Prop :=
            match l with
            | [] => True
            | (_, c) :: l' => all_dirs Q c /\ all l'
            end) es
  end.

(** No directory of the tree has two entries of the same name. *)
Definition unique_names (t : node) : Prop :=
  all_dirs (fun names => NoDup names) t.

(** [P] holds of the name of every entry of the tree. *)
Definition every_name (P : text -> Prop) (t : node) : Prop :=
  all_dirs (fun names => Forall P names) t.

(** A name as a directory holds it: not empty and without separator. *)
Definition component (name : text) : Prop :=
  name <> [] /\ ~ In slash name.


(** The counters agree with what was printed. *)
Definition tallied (s : run_state) : Prop :=
  skipped_count (counts s) = length (filter is_warning (output s))
  /\ change_count (counts s) + error_count (counts s)
     = length (filter is_report (output s))
  /\ error_count (counts s) = length (filter is_failure (output s)).


(** What a change block of the output says. *)
Definition sound_event (dry_run : bool) (e : event) : Prop :=
  match e with
  | TooLongWarning _ => True
  | ChangeReport applied _ name new_name invalid trailing reserved =>
      applied = negb dry_run
      /\ new_name <> name
      /\ has_invalid new_name = false
      /\ invalid = has_invalid name
      /\ trailing = has_trailing name
      /\ reserved = is_reserved name
      /\ invalid || trailing || reserved = true
  | RenameError _ => dry_run = false
  end.

(** The names the loop body takes up when they need it: names as a
    directory holds them, other than the name of the script and within the
    limit. *)
Definition in_scope (script_name : text) (max_length : Z) (name : text)
  : Prop :=
  component name /\ name <> script_name /\ (Py.len name <= max_length)%Z.


(** Nothing was counted as renamed or failed, and no change block was
    printed, between two states. *)
Definition nothing_changed (s s' : run_state) : Prop :=
  change_count (counts s') = change_count (counts s)
  /\ error_count (counts s') = error_count (counts s)
  /\ filter is_report (output s') = filter is_report (output s).

Definition tree_mixed : node :=
  Dir [ (str "ok.txt", File []); (str "a?b", File []);
        (str "sub ", Dir [ (str "x.", File []); (str "y", File []) ]);
        (str "abcdefghijkl", File []) ].

Definition tree_fine : node :=
  Dir [ (str "ok.txt", File []);
        (str "sub", Dir [ (str "x", File []) ]) ].

(** * Facts about the model *)

(** ** The examples of the specification *)

Example ex_substitution : sanitized 255 (str "a:b*c?.txt") = str "a_b_c_.txt".
Proof. reflexivity. Qed.

Example ex_reserved : sanitized 255 (str "CON") = str "_CON".
Proof. reflexivity. Qed.

Example ex_reserved_ext : sanitized 255 (str "com3.txt") = str "_com3.txt".
Proof. reflexivity. Qed.

Example ex_placeholder : sanitized 255 (str "...") = str "unnamed".
Proof. reflexivity. Qed.

Example ex_truncated : sanitized 7 (str "con.txt") = str "_co.txt".
Proof. reflexivity. Qed.

Example ex_splitext_sep : Py.splitext (str "a.b/c") = (str "a.b/c", []).
Proof. reflexivity. Qed.

Example ex_splitext_dots : Py.splitext (str "x/..a") = (str "x/..a", []).
Proof. reflexivity. Qed.

Example ex_splitext_last : Py.splitext (str "x/.a.b") = (str "x/.a", str ".b").
Proof. reflexivity. Qed.

Example ex_format : Py.format 12 = str "12".
Proof. reflexivity. Qed.

(** * Facts about the Python primitives *)

Lemma eqb_refl (a : text) : Py.eqb a a = true.
Proof.
  induction a as [|x a IH]; simpl; [reflexivity|].
  now rewrite N.eqb_refl, IH.
Qed.

Lemma eqb_eq (a b : text) : Py.eqb a b = true <-> a = b.
Proof.
  split.
  - revert b; induction a as [|x a IH]; intros [|y b]; simpl;
      try discriminate; auto.
    intros H. apply andb_true_iff in H as [Hx Hab].
    apply N.eqb_eq in Hx. f_equal; auto.
  - intros ->. apply eqb_refl.
Qed.

Lemma eqb_neq (a b : text) : Py.eqb a b = false <-> a <> b.
Proof.
  rewrite <- eqb_eq. destruct (Py.eqb a b); split; congruence.
Qed.

Lemma len_app (a b : text) : Py.len (a ++ b) = (Py.len a + Py.len b)%Z.
Proof. unfold Py.len. rewrite length_app. lia. Qed.

Lemma len_nonneg (a : text) : (0 <= Py.len a)%Z.
Proof. unfold Py.len. lia. Qed.

(** ** [rfind] *)

Lemma rfind_range (c : char) (s : text) :
  (-1 <= Py.rfind c s < Py.len s)%Z.
Proof.
  unfold Py.len. induction s as [|x s IH]; simpl length; simpl Py.rfind; [lia|].
  destruct (0 <=? Py.rfind c s)%Z eqn:E.
  - apply Z.leb_le in E. lia.
  - destruct (N.eqb x c); lia.
Qed.

Lemma rfind_absent (c : char) (s : text) :
  ~ In c s -> Py.rfind c s = (-1)%Z.
Proof.
  induction s as [|x s IH]; simpl; intros H; [reflexivity|].
  rewrite IH by tauto. simpl.
  destruct (N.eqb_spec x c); [tauto | reflexivity].
Qed.

Lemma rfind_present (c : char) (s : text) :
  In c s -> (0 <= Py.rfind c s)%Z.
Proof.
  induction s as [|x s IH]; simpl; intros H; [tauto|].
  destruct (0 <=? Py.rfind c s)%Z eqn:E.
  - apply Z.leb_le in E. lia.
  - destruct (N.eqb_spec x c); [lia|].
    destruct H as [H|H]; [congruence|].
    apply IH in H. apply Z.leb_gt in E. lia.
Qed.

Lemma rfind_app (c : char) (a b : text) :
  Py.rfind c (a ++ b) =
  if (0 <=? Py.rfind c b)%Z then (Py.len a + Py.rfind c b)%Z else Py.rfind c a.
Proof.
  unfold Py.len. induction a as [|x a IH].
  - simpl. destruct (0 <=? Py.rfind c b)%Z eqn:E; [reflexivity|].
    apply Z.leb_gt in E. pose proof (rfind_range c b). lia.
  - simpl app. simpl Py.rfind. rewrite IH.
    destruct (0 <=? Py.rfind c b)%Z eqn:E.
    + apply Z.leb_le in E.
      replace (0 <=? Z.of_nat (length a) + Py.rfind c b)%Z with true
        by (symmetry; apply Z.leb_le; lia).
      simpl length. lia.
    + reflexivity.
Qed.

Lemma rfind_app_absent (c : char) (a b : text) :
  ~ In c b -> Py.rfind c (a ++ b) = Py.rfind c a.
Proof.
  intros H. rewrite rfind_app, (rfind_absent _ _ H). reflexivity.
Qed.

Lemma rfind_last (c : char) (a b : text) :
  ~ In c b -> Py.rfind c (a ++ c :: b) = Py.len a.
Proof.
  intros H. rewrite rfind_app. simpl Py.rfind.
  rewrite (rfind_absent _ _ H). simpl. rewrite N.eqb_refl. simpl. lia.
Qed.

(** Every string either lacks [c] or splits at its last occurrence. *)
Lemma last_occurrence (c : char) (s : text) :
  ~ In c s \/ exists a b, s = a ++ c :: b /\ ~ In c b.
Proof.
  induction s as [|x s IH].
  - left. simpl. tauto.
  - destruct IH as [IH|(a & b & -> & Hb)].
    + destruct (N.eq_dec x c) as [->|Hx].
      * right. exists [], s. split; [reflexivity | assumption].
      * left. simpl. intros [H|H]; tauto.
    + right. exists (x :: a), b. split; [reflexivity | assumption].
Qed.

(** ** [basename] *)

Lemma skipn_app_le {A} (k : nat) (a b : list A) :
  k <= length a -> skipn k (a ++ b) = skipn k a ++ b.
Proof.
  intros H. rewrite skipn_app.
  replace (k - length a) with 0 by lia. reflexivity.
Qed.

Lemma basename_app_plain (a b : text) :
  ~ In slash b -> Py.basename (a ++ b) = Py.basename a ++ b.
Proof.
  intros H. unfold Py.basename. rewrite (rfind_app_absent _ _ _ H).
  apply skipn_app_le.
  pose proof (rfind_range slash a). unfold Py.len in *. lia.
Qed.

Lemma basename_after_sep (x c : text) :
  Py.basename (x ++ slash :: c) = Py.basename c.
Proof.
  unfold Py.basename.
  replace (x ++ slash :: c) with ((x ++ [slash]) ++ c)
    by (rewrite <- app_assoc; reflexivity).
  rewrite rfind_app.
  pose proof (rfind_range slash c) as Hc.
  destruct (0 <=? Py.rfind slash c)%Z eqn:E.
  - apply Z.leb_le in E.
    replace (Z.to_nat (Py.len (x ++ [slash]) + Py.rfind slash c + 1))
      with (length (x ++ [slash]) + Z.to_nat (Py.rfind slash c + 1))
      by (unfold Py.len; lia).
    rewrite skipn_app, skipn_all2 by lia. simpl.
    f_equal. lia.
  - apply Z.leb_gt in E.
    rewrite (rfind_last slash x []) by (simpl; tauto).
    replace (Z.to_nat (Py.len x + 1)) with (length (x ++ [slash]) + 0)
      by (unfold Py.len; rewrite length_app; simpl; lia).
    rewrite skipn_app, skipn_all2 by lia. simpl.
    replace (length (x ++ [slash]) + 0 - length (x ++ [slash])) with 0 by lia.
    replace (Z.to_nat (Py.rfind slash c + 1)) with 0 by lia.
    reflexivity.
Qed.

Lemma basename_plain (c : text) : ~ In slash c -> Py.basename c = c.
Proof.
  intros H. unfold Py.basename. rewrite (rfind_absent _ _ H). reflexivity.
Qed.

(** ** [join] *)

Lemma ends_with_sep_inv (a : text) :
  Py.ends_with_sep a = true -> exists a', a = a' ++ [slash].
Proof.
  unfold Py.ends_with_sep. intros H.
  destruct (rev a) as [|c r] eqn:E; [discriminate|].
  apply N.eqb_eq in H. subst c. exists (rev r).
  rewrite <- (rev_involutive a), E. reflexivity.
Qed.

(** [join a b] is [b] itself or [b] behind a prefix that ends in a
    separator. *)
Lemma join_cases (a b : text) :
  Py.join a b = b \/ exists x, Py.join a b = x ++ slash :: b.
Proof.
  assert (Hgen : (if match a with [] => true | _ => Py.ends_with_sep a end
                  then a ++ b else a ++ slash :: b) = b
                 \/ exists x, (if match a with [] => true | _ => Py.ends_with_sep a end
                               then a ++ b else a ++ slash :: b) = x ++ slash :: b).
  { destruct a as [|y a]; [left; reflexivity|].
    destruct (Py.ends_with_sep (y :: a)) eqn:E.
    - apply ends_with_sep_inv in E as [a' ->]. right. exists a'.
      rewrite <- app_assoc. reflexivity.
    - right. exists (y :: a). reflexivity. }
  unfold Py.join. destruct b as [|c b]; [exact Hgen|].
  destruct (N.eqb c slash); [left; reflexivity | exact Hgen].
Qed.

Lemma basename_join (root name : text) :
  ~ In slash name -> Py.basename (Py.join root name) = name.
Proof.
  intros H. destruct (join_cases root name) as [->|[x ->]].
  - apply basename_plain, H.
  - rewrite basename_after_sep. apply basename_plain, H.
Qed.

(** ** [splitext] *)

Lemma splitext_no_dot (p : text) :
  ~ In dot p -> Py.splitext p = (p, []).
Proof.
  intros H. unfold Py.splitext. rewrite (rfind_absent _ _ H).
  pose proof (rfind_range slash p).
  replace (Py.rfind slash p <? -1)%Z with false
    by (symmetry; apply Z.ltb_ge; lia).
  reflexivity.
Qed.

Lemma splitext_sep_after (a e : text) :
  ~ In dot e -> In slash e ->
  Py.splitext (a ++ dot :: e) = (a ++ dot :: e, []).
Proof.
  intros Hd Hs. unfold Py.splitext.
  rewrite (rfind_last dot a e Hd).
  rewrite rfind_app.
  assert (0 <= Py.rfind slash (dot :: e))%Z as H0
    by (apply rfind_present; right; exact Hs).
  assert (1 <= Py.rfind slash (dot :: e))%Z as H1.
  { simpl. pose proof (rfind_present _ _ Hs) as Hp.
    apply Z.leb_le in Hp. rewrite Hp. apply Z.leb_le in Hp. lia. }
  apply Z.leb_le in H0. rewrite H0.
  replace (Py.len a + Py.rfind slash (dot :: e) <? Py.len a)%Z with false
    by (symmetry; apply Z.ltb_ge; lia).
  reflexivity.
Qed.

Lemma splitext_sep_before (a e : text) :
  ~ In dot e -> ~ In slash e ->
  Py.splitext (a ++ dot :: e) =
  if existsb not_dot (Py.basename a) then (a, dot :: e)
  else (a ++ dot :: e, []).
Proof.
  intros Hd Hs. unfold Py.splitext.
  rewrite (rfind_last dot a e Hd).
  assert (~ In slash (dot :: e)) as Hs'
    by (simpl; intros [H|H]; [discriminate | tauto]).
  rewrite (rfind_app_absent slash a (dot :: e) Hs').
  pose proof (rfind_range slash a) as Hr.
  replace (Py.rfind slash a <? Py.len a)%Z with true
    by (symmetry; apply Z.ltb_lt; lia).
  assert (Py.slice (a ++ dot :: e) (Py.rfind slash a + 1) (Py.len a)
          = Py.basename a) as ->.
  { unfold Py.slice, Py.basename.
    rewrite skipn_app_le by (unfold Py.len in *; lia).
    rewrite firstn_app.
    replace (Z.to_nat (Py.len a - (Py.rfind slash a + 1))
             - length (skipn (Z.to_nat (Py.rfind slash a + 1)) a)) with 0
      by (rewrite length_skipn; unfold Py.len in *; lia).
    simpl. rewrite app_nil_r. apply firstn_all2.
    rewrite length_skipn. unfold Py.len in *. lia. }
  unfold Py.len. rewrite Nat2Z.id.
  rewrite firstn_app, firstn_all, Nat.sub_diag. simpl. rewrite app_nil_r.
  rewrite skipn_app, skipn_all, Nat.sub_diag. simpl.
  reflexivity.
Qed.

(** The two halves put together give the argument back. *)
Lemma splitext_app (p : text) :
  fst (Py.splitext p) ++ snd (Py.splitext p) = p.
Proof.
  unfold Py.splitext.
  destruct (_ <? _)%Z; [|apply app_nil_r].
  destruct (existsb _ _); [|apply app_nil_r].
  simpl. apply firstn_skipn.
Qed.

Lemma splitext_shape (p : text) : split_shape p (Py.splitext p).
Proof.
  destruct (last_occurrence dot p) as [H|(a & e & -> & He)].
  - rewrite splitext_no_dot by assumption. constructor.
  - destruct (in_dec N.eq_dec slash e) as [Hs|Hs].
    + rewrite splitext_sep_after by assumption. constructor.
    + rewrite splitext_sep_before by assumption.
      destruct (existsb not_dot (Py.basename a)) eqn:E.
      * now constructor.
      * constructor.
Qed.

Lemma splitext_ext_shape (p : text) : ext_shape (snd (Py.splitext p)).
Proof.
  destruct (splitext_shape p) as [|a e _ Hd Hs _]; [left; reflexivity|].
  right. exists e. simpl. auto.
Qed.

(** The extension of a path is the extension of its last component. *)
Lemma splitext_behind_sep (x c : text) :
  snd (Py.splitext (x ++ slash :: c)) = snd (Py.splitext c).
Proof.
  destruct (last_occurrence dot c) as [Hc|(a & e & -> & He)].
  - rewrite (splitext_no_dot c Hc). simpl.
    destruct (last_occurrence dot x) as [Hx|(a' & e' & -> & He')].
    + rewrite splitext_no_dot; [reflexivity|].
      rewrite in_app_iff. simpl. intros [H|[H|H]]; try tauto; discriminate.
    + rewrite <- app_assoc. simpl.
      rewrite splitext_sep_after; [reflexivity| |].
      * rewrite in_app_iff. simpl. intros [H|[H|H]]; try tauto; discriminate.
      * rewrite in_app_iff. simpl. tauto.
  - replace (x ++ slash :: a ++ dot :: e) with ((x ++ slash :: a) ++ dot :: e)
      by (rewrite <- app_assoc; reflexivity).
    destruct (in_dec N.eq_dec slash e) as [Hs|Hs].
    + rewrite !splitext_sep_after by assumption. reflexivity.
    + rewrite !splitext_sep_before by assumption.
      rewrite basename_after_sep.
      destruct (existsb not_dot (Py.basename a)); reflexivity.
Qed.

Lemma splitext_join (root c : text) :
  snd (Py.splitext (Py.join root c)) = snd (Py.splitext c).
Proof.
  destruct (join_cases root c) as [->|[x ->]]; [reflexivity|].
  apply splitext_behind_sep.
Qed.

(** ** [format] *)

Lemma digits_of_uint (d : uint) :
  Forall (fun c => is_digit c = true) (str (NilEmpty.string_of_uint d)).
Proof.
  induction d; simpl; constructor; try assumption; reflexivity.
Qed.

Lemma format_digits (n : nat) :
  Forall (fun c => is_digit c = true) (Py.format n).
Proof.
  unfold Py.format, NilZero.string_of_uint.
  destruct (Nat.to_uint n) eqn:E; try (rewrite <- E; apply digits_of_uint).
  repeat constructor.
Qed.

Lemma format_nonempty (n : nat) : Py.format n <> [].
Proof.
  unfold Py.format, NilZero.string_of_uint.
  destruct (Nat.to_uint n); simpl; discriminate.
Qed.

Lemma digit_not_in (c : char) (s : text) :
  is_digit c = false -> Forall (fun c => is_digit c = true) s -> ~ In c s.
Proof.
  intros Hc Hs Hin. rewrite Forall_forall in Hs.
  apply Hs in Hin. congruence.
Qed.

(** ** One round of the collision loop *)

Lemma suffix_plain (c : char) (k : nat) :
  is_digit c = false -> c <> underscore ->
  ~ In c (underscore :: Py.format k).
Proof.
  intros Hd Hu [H|H]; [congruence|].
  revert H. apply digit_not_in; [assumption | apply format_digits].
Qed.

(** A name that does not split still does not split with a suffix
    appended. *)
Lemma splitext_suffix_nosplit (n sfx : text) :
  ~ In dot sfx -> ~ In slash sfx ->
  snd (Py.splitext n) = [] ->
  Py.splitext (n ++ sfx) = (n ++ sfx, []).
Proof.
  intros Hd Hs Hn.
  destruct (last_occurrence dot n) as [H|(a & e & -> & He)].
  - apply splitext_no_dot. rewrite in_app_iff. tauto.
  - rewrite <- app_assoc. simpl.
    destruct (in_dec N.eq_dec slash e) as [Hse|Hse].
    + apply splitext_sep_after; rewrite in_app_iff; tauto.
    + rewrite splitext_sep_before in Hn by assumption.
      rewrite splitext_sep_before by (rewrite in_app_iff; tauto).
      destruct (existsb not_dot (Py.basename a)); [discriminate | reflexivity].
Qed.

(** A name built with a proper extension splits at that extension. *)
Lemma splitext_suffix_split (b sfx e : text) :
  In underscore sfx -> ~ In slash sfx ->
  ~ In dot e -> ~ In slash e ->
  Py.splitext ((b ++ sfx) ++ dot :: e) = (b ++ sfx, dot :: e).
Proof.
  intros Hu Hs Hd Hse.
  rewrite splitext_sep_before by assumption.
  rewrite basename_app_plain by assumption.
  replace (existsb not_dot (Py.basename b ++ sfx)) with true; [reflexivity|].
  symmetry. apply existsb_exists. exists underscore.
  rewrite in_app_iff. split; [tauto | reflexivity].
Qed.

(** The extension is an invariant of the loop. *)
Lemma next_name_splitext (ext n : text) (k : nat) :
  ext_shape ext -> snd (Py.splitext n) = ext ->
  Py.splitext (next_name ext n k)
  = (fst (Py.splitext n) ++ underscore :: Py.format k, ext).
Proof.
  intros Hshape Hn. unfold next_name.
  assert (~ In dot (underscore :: Py.format k)) as Hd
    by (apply suffix_plain; [reflexivity | discriminate]).
  assert (~ In slash (underscore :: Py.format k)) as Hs
    by (apply suffix_plain; [reflexivity | discriminate]).
  destruct Hshape as [->|(e & -> & He & Hse)].
  - rewrite app_nil_r.
    assert (fst (Py.splitext n) = n) as ->.
    { pose proof (splitext_app n) as H. rewrite Hn, app_nil_r in H. exact H. }
    apply splitext_suffix_nosplit; assumption.
  - replace (fst (Py.splitext n) ++ underscore :: Py.format k ++ dot :: e)
      with ((fst (Py.splitext n) ++ underscore :: Py.format k) ++ dot :: e)
      by (rewrite <- app_assoc; reflexivity).
    apply splitext_suffix_split; try assumption. left. reflexivity.
Qed.

(** Every round makes the name longer. *)
Lemma next_name_longer (ext n : text) (k : nat) :
  snd (Py.splitext n) = ext ->
  length n < length (next_name ext n k).
Proof.
  intros Hn. unfold next_name.
  rewrite <- (splitext_app n) at 1. rewrite Hn.
  rewrite !length_app. simpl. rewrite length_app. lia.
Qed.

(** ** The collision loop ends *)

Lemma path_exists_in (es : listing) (n : text) :
  path_exists es n = true <-> In n (map fst es).
Proof.
  unfold path_exists. rewrite existsb_exists, in_map_iff. split.
  - intros (e & He & Heq). apply eqb_eq in Heq. eauto.
  - intros (e & Heq & He). exists e. split; [assumption|]. now apply eqb_eq.
Qed.

Lemma filter_longer_le (names : list text) (n m : nat) :
  n <= m ->
  length (filter (at_least m) names) <= length (filter (at_least n) names).
Proof.
  intros Hnm. induction names as [|y l IH]; simpl; [lia|].
  change (at_least m y) with (m <=? length y).
  change (at_least n y) with (n <=? length y).
  destruct (Nat.leb_spec m (length y)); destruct (Nat.leb_spec n (length y));
    simpl; lia.
Qed.

Lemma filter_longer_lt (names : list text) (n m : nat) (x : text) :
  n < m -> In x names -> length x = n ->
  length (filter (at_least m) names) < length (filter (at_least n) names).
Proof.
  intros Hnm Hin Hx.
  induction names as [|y l IH]; simpl in *; [tauto|].
  change (at_least m y) with (m <=? length y).
  change (at_least n y) with (n <=? length y).
  pose proof (filter_longer_le l n m) as Hle.
  destruct Hin as [->|Hin].
  - destruct (Nat.leb_spec m (length x)); destruct (Nat.leb_spec n (length x));
      simpl; lia.
  - specialize (IH Hin).
    destruct (Nat.leb_spec m (length y)); destruct (Nat.leb_spec n (length y));
      simpl; lia.
Qed.

Lemma collision_loop_ends (es : listing) (ext : text) :
  ext_shape ext ->
  forall (fuel : nat) (n : text) (k : nat),
    snd (Py.splitext n) = ext ->
    length (filter (at_least (length n)) (map fst es)) < fuel ->
    exists r, collision_loop fuel (path_exists es) ext n k = Some r.
Proof.
  intros Hshape. induction fuel as [|fuel IH]; intros n k Hn Hfuel; [lia|].
  simpl. destruct (path_exists es n) eqn:E; [|eauto].
  apply path_exists_in in E.
  apply IH.
  - fold (next_name ext n k). rewrite next_name_splitext by assumption.
    reflexivity.
  - fold (next_name ext n k).
    pose proof (next_name_longer ext n k Hn) as Hlonger.
    pose proof (filter_longer_lt (map fst es) _ _ _ Hlonger E eq_refl). lia.
Qed.

(** What holds of the first name and is kept by every round holds of the
    name the loop ends with, and that name is free. *)
Lemma collision_loop_invariant (P : text -> Prop) (taken : text -> bool)
      (ext : text) :
  (forall n k, P n -> P (next_name ext n k)) ->
  forall (fuel : nat) (n : text) (k : nat) (r : text),
    P n -> collision_loop fuel taken ext n k = Some r ->
    P r /\ taken r = false.
Proof.
  intros Hstep. induction fuel as [|fuel IH]; intros n k r Hn Hr; [discriminate|].
  simpl in Hr. destruct (taken n) eqn:E.
  - eapply IH; [|exact Hr]. apply Hstep, Hn.
  - injection Hr as <-. auto.
Qed.

(** Lines 89-95 always end with a name. *)
Lemma resolve_collision_total (root new_name : text) (es : listing) :
  exists r, resolve_collision root new_name es = Some r.
Proof.
  unfold resolve_collision. apply collision_loop_ends.
  - apply splitext_ext_shape.
  - symmetry. apply splitext_join.
  - pose proof (filter_length_le (at_least (length new_name)) (map fst es)).
    rewrite length_map in *. lia.
Qed.

(** ** [strip] *)

Lemma lstrip_clean (s : text) :
  Py.strip_char (hd dot s) = false -> Py.lstrip s = s.
Proof.
  destruct s as [|c r]; simpl; [reflexivity|]. now intros ->.
Qed.

Lemma lstrip_head (s : text) :
  Py.lstrip s = [] \/ Py.strip_char (hd dot (Py.lstrip s)) = false.
Proof.
  induction s as [|c r IH]; simpl; [now left|].
  destruct (Py.strip_char c) eqn:E; [exact IH | right; exact E].
Qed.

Lemma rstrip_cons (c : char) (r : text) :
  Py.rstrip (c :: r) = [] \/ exists r', Py.rstrip (c :: r) = c :: r'.
Proof.
  simpl. destruct (Py.rstrip r).
  - destruct (Py.strip_char c); [now left | right; now exists []].
  - right. eauto.
Qed.

Lemma rstrip_head (s : text) :
  Py.rstrip s <> [] -> hd dot (Py.rstrip s) = hd dot s.
Proof.
  destruct s as [|c r]; [reflexivity|].
  destruct (rstrip_cons c r) as [->|[r' ->]]; [congruence | reflexivity].
Qed.

Lemma rstrip_last (s : text) :
  Py.rstrip s = [] \/ Py.strip_char (last (Py.rstrip s) dot) = false.
Proof.
  induction s as [|c r IH]; simpl; [now left|].
  destruct (Py.rstrip r) as [|y r'] eqn:E.
  - destruct (Py.strip_char c) eqn:Ec; [now left | right; exact Ec].
  - right. destruct IH as [IH|IH]; [discriminate | exact IH].
Qed.

Lemma rstrip_clean (s : text) :
  s <> [] -> Py.strip_char (last s dot) = false -> Py.rstrip s = s.
Proof.
  induction s as [|c r IH]; [congruence|]. intros _ Hlast.
  destruct r as [|y r].
  - simpl in *. now rewrite Hlast.
  - assert (Py.rstrip (y :: r) = y :: r) as Hr
      by (apply IH; [discriminate | exact Hlast]).
    change (Py.rstrip (c :: y :: r))
      with (match Py.rstrip (y :: r) with
            | [] => if Py.strip_char c then [] else [c]
            | r' => c :: r'
            end).
    rewrite Hr. reflexivity.
Qed.

Lemma rstrip_app (a b : text) :
  Py.rstrip (a ++ b) =
  match Py.rstrip b with
  | [] => Py.rstrip a
  | b' => a ++ b'
  end.
Proof.
  induction a as [|c a IH]; simpl.
  - destruct (Py.rstrip b); reflexivity.
  - rewrite IH. destruct (Py.rstrip b); [reflexivity|].
    destruct a; reflexivity.
Qed.

Lemma rstrip_length (s : text) : length (Py.rstrip s) <= length s.
Proof.
  induction s as [|c r IH]; simpl; [lia|].
  destruct (Py.rstrip r); [destruct (Py.strip_char c)|]; simpl in *; lia.
Qed.

Lemma lstrip_length (s : text) : length (Py.lstrip s) <= length s.
Proof.
  induction s as [|c r IH]; simpl; [lia|].
  destruct (Py.strip_char c); simpl; lia.
Qed.

Lemma strip_length (s : text) : length (Py.strip s) <= length s.
Proof.
  unfold Py.strip. pose proof (rstrip_length (Py.lstrip s)).
  pose proof (lstrip_length s). lia.
Qed.

(** What [strip] returns is empty or has clean edges. *)
Lemma strip_clean_edges (s : text) :
  Py.strip s = [] \/ clean_edges (Py.strip s).
Proof.
  unfold Py.strip.
  destruct (Py.rstrip (Py.lstrip s)) as [|c r] eqn:E; [now left|].
  right. rewrite <- E. unfold clean_edges.
  assert (Py.rstrip (Py.lstrip s) <> []) as Hne by (rewrite E; discriminate).
  split; [exact Hne|]. split.
  - rewrite rstrip_head by exact Hne.
    destruct (lstrip_head s) as [H|H]; [|exact H].
    rewrite H in Hne. simpl in Hne. congruence.
  - destruct (rstrip_last (Py.lstrip s)) as [H|H]; [congruence | exact H].
Qed.

Lemma strip_fixed_clean (s : text) : clean_edges s -> Py.strip s = s.
Proof.
  intros (Hne & Hhd & Hlast). unfold Py.strip.
  rewrite (lstrip_clean s Hhd). now apply rstrip_clean.
Qed.

Lemma strip_fixed (s : text) :
  Py.strip s = s <-> s = [] \/ clean_edges s.
Proof.
  split.
  - intros H. destruct (strip_clean_edges s) as [H'|H'];
      rewrite H in H'; auto.
  - intros [->|H]; [reflexivity | now apply strip_fixed_clean].
Qed.

Lemma has_trailing_false (name : text) :
  has_trailing name = false <-> Py.strip name = name.
Proof.
  unfold has_trailing. rewrite negb_false_iff. apply eqb_eq.
Qed.

Lemma has_trailing_true (name : text) :
  has_trailing name = true <-> Py.strip name <> name.
Proof.
  unfold has_trailing. rewrite negb_true_iff. apply eqb_neq.
Qed.

(** Membership of the edges. *)
Lemma last_in (s : text) (d : char) : s <> [] -> In (last s d) s.
Proof.
  induction s as [|c r IH]; [congruence|]. intros _.
  destruct r as [|y r]; [left; reflexivity|].
  right. apply IH. discriminate.
Qed.

Lemma hd_in (s : text) (d : char) : s <> [] -> In (hd d s) s.
Proof. destruct s; [congruence | left; reflexivity]. Qed.

(** A non-empty name made of harmless characters has clean edges. *)
Lemma all_plain_clean (s : text) :
  s <> [] -> Forall (fun c => Py.strip_char c = false) s -> clean_edges s.
Proof.
  intros Hne Hall. rewrite Forall_forall in Hall.
  split; [exact Hne|]. split; apply Hall; [apply hd_in | apply last_in];
    exact Hne.
Qed.

Lemma last_app_nonempty (a b : text) (d : char) :
  b <> [] -> last (a ++ b) d = last b d.
Proof.
  intros Hb. induction a as [|c a IH]; [reflexivity|].
  simpl app. rewrite <- IH.
  destruct (a ++ b) eqn:E; [|reflexivity].
  apply app_eq_nil in E. tauto.
Qed.

Lemma hd_app_nonempty (a b : text) (d : char) :
  a <> [] -> hd d (a ++ b) = hd d a.
Proof. destruct a; [congruence | reflexivity]. Qed.

(** ** Character classes *)

Lemma is_forbidden_spec (c : char) :
  is_forbidden c = true <->
  (c <= 31 \/ c = 60 \/ c = 62 \/ c = 58 \/ c = 34 \/ c = 47 \/ c = 92
   \/ c = 124 \/ c = 63 \/ c = 42)%N.
Proof.
  unfold is_forbidden. rewrite orb_true_iff, N.leb_le.
  change forbidden_chars with [60; 62; 58; 34; 47; 92; 124; 63; 42]%N.
  simpl existsb. rewrite !orb_true_iff, !N.eqb_eq. intuition congruence.
Qed.

Lemma is_forbidden_false (c : char) :
  is_forbidden c = false <->
  (31 < c /\ c <> 60 /\ c <> 62 /\ c <> 58 /\ c <> 34 /\ c <> 47 /\ c <> 92
   /\ c <> 124 /\ c <> 63 /\ c <> 42)%N.
Proof.
  rewrite <- not_true_iff_false, is_forbidden_spec. lia.
Qed.

Lemma strip_char_spec (c : char) :
  Py.strip_char c = true <-> (c = 32 \/ c = 46)%N.
Proof.
  unfold Py.strip_char, space, dot. now rewrite orb_true_iff, !N.eqb_eq.
Qed.

Lemma strip_char_false (c : char) :
  Py.strip_char c = false <-> (c <> 32 /\ c <> 46)%N.
Proof.
  rewrite <- not_true_iff_false, strip_char_spec. lia.
Qed.

Lemma alnum_spec (c : char) :
  alnum c = true <->
  (48 <= c <= 57 \/ 65 <= c <= 90 \/ 97 <= c <= 122)%N.
Proof.
  unfold alnum. rewrite !orb_true_iff, !andb_true_iff, !N.leb_le. tauto.
Qed.

Lemma alnum_safe (c : char) : alnum c = true -> is_forbidden c = false.
Proof. rewrite alnum_spec, is_forbidden_false. lia. Qed.

Lemma alnum_plain (c : char) : alnum c = true -> Py.strip_char c = false.
Proof. rewrite alnum_spec, strip_char_false. lia. Qed.

Lemma alnum_not_underscore (c : char) : alnum c = true -> c <> underscore.
Proof. rewrite alnum_spec. unfold underscore. lia. Qed.

Lemma alnum_not_dot (c : char) : alnum c = true -> c <> dot.
Proof. rewrite alnum_spec. unfold dot. lia. Qed.

Lemma digit_alnum (c : char) : is_digit c = true -> alnum c = true.
Proof.
  unfold is_digit. rewrite alnum_spec, andb_true_iff, !N.leb_le. lia.
Qed.

Lemma lower_alnum (c p : char) :
  lower c = lower p -> alnum p = true -> alnum c = true.
Proof.
  unfold lower. rewrite !alnum_spec.
  destruct (N.leb_spec 65 c); destruct (N.leb_spec c 90);
    destruct (N.leb_spec 65 p); destruct (N.leb_spec p 90); simpl; lia.
Qed.

Lemma underscore_safe : is_forbidden underscore = false.
Proof. reflexivity. Qed.

Lemma underscore_plain : Py.strip_char underscore = false.
Proof. reflexivity. Qed.

Lemma slash_forbidden : is_forbidden slash = true.
Proof. reflexivity. Qed.

Lemma strip_char_safe (c : char) :
  Py.strip_char c = true -> is_forbidden c = false.
Proof. rewrite strip_char_spec, is_forbidden_false. lia. Qed.

Lemma all_alnum_safe (s : text) : all_alnum s -> all_safe s.
Proof. apply Forall_impl. exact alnum_safe. Qed.

Lemma all_alnum_plain (s : text) : all_alnum s -> all_plain s.
Proof. apply Forall_impl. exact alnum_plain. Qed.

Lemma all_safe_no_slash (s : text) : all_safe s -> ~ In slash s.
Proof.
  intros H Hin. unfold all_safe in H. rewrite Forall_forall in H.
  apply H in Hin. discriminate.
Qed.

Lemma has_invalid_false (s : text) : has_invalid s = false <-> all_safe s.
Proof.
  unfold has_invalid, all_safe. rewrite Forall_forall. split.
  - intros H c Hc. destruct (is_forbidden c) eqn:E; [|reflexivity].
    assert (existsb is_forbidden s = true) by (apply existsb_exists; eauto).
    congruence.
  - intros H. apply not_true_iff_false. intros He.
    apply existsb_exists in He as (c & Hc & Hf). apply H in Hc. congruence.
Qed.

Lemma has_invalid_true (s : text) :
  has_invalid s = true <-> exists c, In c s /\ is_forbidden c = true.
Proof. apply existsb_exists. Qed.

(** ** The substitution *)

Lemma re_sub_safe (s : text) : all_safe (re_sub_forbidden s).
Proof.
  unfold all_safe, re_sub_forbidden. apply Forall_map, Forall_forall.
  intros c _. destruct (is_forbidden c) eqn:E; [reflexivity | exact E].
Qed.

Lemma re_sub_length (s : text) : length (re_sub_forbidden s) = length s.
Proof. apply length_map. Qed.

Lemma re_sub_fixed (s : text) : all_safe s -> re_sub_forbidden s = s.
Proof.
  unfold re_sub_forbidden. induction 1 as [|c s Hc _ IH]; simpl; [reflexivity|].
  now rewrite Hc, IH.
Qed.

Lemma re_sub_app (a b : text) :
  re_sub_forbidden (a ++ b) = re_sub_forbidden a ++ re_sub_forbidden b.
Proof. apply map_app. Qed.

Lemma re_sub_char_plain (c : char) :
  Py.strip_char (if is_forbidden c then underscore else c) = Py.strip_char c.
Proof.
  destruct (is_forbidden c) eqn:E; [|reflexivity].
  destruct (Py.strip_char c) eqn:E'; [|reflexivity].
  apply strip_char_safe in E'. congruence.
Qed.

Lemma re_sub_clean_edges (s : text) :
  clean_edges s -> clean_edges (re_sub_forbidden s).
Proof.
  intros (Hne & Hhd & Hlast). unfold re_sub_forbidden.
  split; [destruct s; [congruence | discriminate]|]. split.
  - destruct s as [|c r]; [congruence|]. simpl in *.
    now rewrite re_sub_char_plain.
  - clear Hhd. induction s as [|c r IH]; [congruence|].
    destruct r as [|y r].
    + simpl in *. now rewrite re_sub_char_plain.
    + apply IH; [discriminate | exact Hlast].
Qed.

Lemma replace_invalid_safe (name : text) : all_safe (replace_invalid name).
Proof.
  unfold replace_invalid. destruct (has_invalid name) eqn:E.
  - apply re_sub_safe.
  - now apply has_invalid_false.
Qed.

Lemma replace_invalid_length (name : text) :
  length (replace_invalid name) = length name.
Proof.
  unfold replace_invalid. destruct (has_invalid name); [apply re_sub_length|].
  reflexivity.
Qed.

Lemma replace_invalid_clean_edges (name : text) :
  clean_edges name -> clean_edges (replace_invalid name).
Proof.
  unfold replace_invalid. destruct (has_invalid name); [|auto].
  apply re_sub_clean_edges.
Qed.

(** ** Sub-strings keep harmless characters *)

Lemma lstrip_forall (P : char -> Prop) (s : text) :
  Forall P s -> Forall P (Py.lstrip s).
Proof.
  induction 1 as [|c s Hc Hs IH]; simpl; [constructor|].
  destruct (Py.strip_char c); [exact IH | now constructor].
Qed.

Lemma rstrip_forall (P : char -> Prop) (s : text) :
  Forall P s -> Forall P (Py.rstrip s).
Proof.
  induction 1 as [|c s Hc Hs IH]; simpl; [constructor|].
  destruct (Py.rstrip s).
  - destruct (Py.strip_char c); [constructor | now repeat constructor].
  - now constructor.
Qed.

Lemma strip_forall (P : char -> Prop) (s : text) :
  Forall P s -> Forall P (Py.strip s).
Proof. intros H. now apply rstrip_forall, lstrip_forall. Qed.

Lemma firstn_forall (P : char -> Prop) (k : nat) (s : text) :
  Forall P s -> Forall P (firstn k s).
Proof.
  intros H. rewrite Forall_forall in *. intros c Hc. apply H.
  rewrite <- (firstn_skipn k s). apply in_or_app. now left.
Qed.

Lemma slice_to_forall (P : char -> Prop) (k : Z) (s : text) :
  Forall P s -> Forall P (Py.slice_to s k).
Proof.
  intros H. unfold Py.slice_to. destruct (k <? 0)%Z; now apply firstn_forall.
Qed.

Lemma splitext_forall (P : char -> Prop) (s : text) :
  Forall P s ->
  Forall P (fst (Py.splitext s)) /\ Forall P (snd (Py.splitext s)).
Proof.
  intros H. rewrite <- (splitext_app s) in H.
  now apply Forall_app in H.
Qed.

Lemma unnamed_alnum : all_alnum unnamed.
Proof. repeat constructor. Qed.

(** ** Reserved names *)

Lemma literal_ci_inv (w : text) :
  all_alnum w ->
  forall s r, literal_ci w s = Some r ->
  exists p, s = p ++ r /\ length p = length w /\ all_alnum p.
Proof.
  induction 1 as [|x w Hx Hw IH]; intros s r H.
  - simpl in H. injection H as ->. exists []. repeat split. constructor.
  - destruct s as [|c s]; [discriminate|]. simpl in H.
    destruct (N.eqb_spec (lower c) (lower x)) as [E|E]; [|discriminate].
    apply IH in H as (p & -> & Hlen & Hp).
    exists (c :: p). repeat split; simpl; [now rewrite Hlen|].
    constructor; [|exact Hp]. eapply lower_alnum; eauto.
Qed.

Lemma digit_1_9_inv (s r : text) :
  digit_1_9 s = Some r -> exists c, s = c :: r /\ alnum c = true.
Proof.
  destruct s as [|c s]; [discriminate|]. simpl.
  destruct (N.leb 49 c && N.leb c 57) eqn:E; [|discriminate].
  intros H. injection H as ->. exists c. split; [reflexivity|].
  apply andb_true_iff in E as [E1 E2]. apply N.leb_le in E1, E2.
  apply alnum_spec. lia.
Qed.

Lemma device_word_inv (w : string) (s r : text) :
  all_alnum (str w) -> device_word w s = Some r ->
  exists p, s = p ++ r /\ length p = length (str w) /\ all_alnum p.
Proof. intros Hw. apply literal_ci_inv, Hw. Qed.

Lemma device_port_inv (w : string) (s r : text) :
  all_alnum (str w) -> device_port w s = Some r ->
  exists p, s = p ++ r /\ length p = S (length (str w)) /\ all_alnum p.
Proof.
  intros Hw. unfold device_port.
  destruct (literal_ci (str w) s) as [r'|] eqn:E; [|discriminate].
  intros H. apply literal_ci_inv in E as (p & -> & Hlen & Hp); [|exact Hw].
  apply digit_1_9_inv in H as (c & -> & Hc).
  exists (p ++ [c]). rewrite <- app_assoc. repeat split.
  - rewrite length_app. simpl. lia.
  - apply Forall_app. split; [exact Hp | now repeat constructor].
Qed.

(** The tail the pattern allows behind the device name. *)
Lemma opt_ext_end_inv (rest : text) :
  opt_ext_end rest = true ->
  rest = [] \/ rest = [newline] \/ exists r, rest = dot :: r.
Proof.
  unfold opt_ext_end. intros H. apply orb_true_iff in H as [H|H].
  - destruct rest as [|c [|y r]]; try discriminate; [now left|].
    simpl in H. apply N.eqb_eq in H. subst. right. now left.
  - destruct rest as [|c r]; [discriminate|].
    apply andb_true_iff in H as [H _]. apply N.eqb_eq in H. subst.
    right. right. eauto.
Qed.

(** A reserved name is a device name of three or four letters and digits,
    followed by nothing, a newline, or a dot and more. *)
Lemma is_reserved_inv (name : text) :
  is_reserved name = true ->
  exists p rest, name = p ++ rest /\ 3 <= length p /\ all_alnum p
                 /\ (rest = [] \/ rest = [newline] \/ exists r, rest = dot :: r).
Proof.
  unfold is_reserved, reserved_heads. simpl existsb.
  rewrite !orb_true_iff.
  assert (forall w, all_alnum (str w) -> length (str w) = 3 ->
            match device_word w name with
            | Some r => opt_ext_end r
            | None => false
            end = true ->
            exists p rest, name = p ++ rest /\ 3 <= length p /\ all_alnum p
              /\ (rest = [] \/ rest = [newline] \/ exists r, rest = dot :: r))
    as Hword.
  { intros w Hw Hlen H. destruct (device_word w name) as [r|] eqn:E;
      [|discriminate].
    apply device_word_inv in E as (p & -> & Hp & Hal); [|exact Hw].
    exists p, r. repeat split; [lia | exact Hal | now apply opt_ext_end_inv]. }
  assert (forall w, all_alnum (str w) -> length (str w) = 3 ->
            match device_port w name with
            | Some r => opt_ext_end r
            | None => false
            end = true ->
            exists p rest, name = p ++ rest /\ 3 <= length p /\ all_alnum p
              /\ (rest = [] \/ rest = [newline] \/ exists r, rest = dot :: r))
    as Hport.
  { intros w Hw Hlen H. destruct (device_port w name) as [r|] eqn:E;
      [|discriminate].
    apply device_port_inv in E as (p & -> & Hp & Hal); [|exact Hw].
    exists p, r. repeat split; [lia | exact Hal | now apply opt_ext_end_inv]. }
  intros [H|[H|[H|[H|[H|[H|H]]]]]]; try discriminate;
    ((apply Hword in H; [exact H | repeat constructor | reflexivity])
     || (apply Hport in H; [exact H | repeat constructor | reflexivity])).
Qed.

Lemma is_reserved_head (name : text) :
  is_reserved name = true -> name <> [] /\ alnum (hd dot name) = true.
Proof.
  intros H. apply is_reserved_inv in H as (p & rest & -> & Hlen & Hp & _).
  destruct p as [|c p]; [simpl in Hlen; lia|].
  split; [discriminate|]. simpl. now inversion Hp.
Qed.

(** ** The name after trimming (lines 63-74) *)

Lemma fixed_name_trimmed (name : text) :
  fixed_name name = handle_reserved name (trimmed name).
Proof. reflexivity. Qed.

Lemma needs_fix_nonempty (name : text) : needs_fix name = true -> name <> [].
Proof. intros H ->. discriminate. Qed.

Lemma unnamed_clean : clean_edges unnamed.
Proof. repeat split; try discriminate. Qed.

Lemma trimmed_safe (name : text) : all_safe (trimmed name).
Proof.
  unfold trimmed, remove_trailing.
  pose proof (replace_invalid_safe name) as H.
  destruct (has_trailing name); [|exact H].
  destruct (Py.strip (replace_invalid name)) eqn:E.
  - apply all_alnum_safe, unnamed_alnum.
  - rewrite <- E. now apply strip_forall.
Qed.

Lemma trimmed_clean (name : text) : name <> [] -> clean_edges (trimmed name).
Proof.
  intros Hne. unfold trimmed, remove_trailing.
  destruct (has_trailing name) eqn:Ht.
  - destruct (strip_clean_edges (replace_invalid name)) as [H|H].
    + rewrite H. apply unnamed_clean.
    + destruct (Py.strip (replace_invalid name)) eqn:E; [|exact H].
      destruct H as [H _]. congruence.
  - apply replace_invalid_clean_edges.
    apply has_trailing_false, strip_fixed in Ht. tauto.
Qed.

(** Trimming shortens the name, unless the placeholder steps in. *)
Lemma trimmed_length (name : text) :
  (has_trailing name = true /\ Py.strip (replace_invalid name) = []
   /\ trimmed name = unnamed)
  \/ length (trimmed name) <= length name.
Proof.
  unfold trimmed, remove_trailing.
  destruct (has_trailing name).
  - destruct (Py.strip (replace_invalid name)) eqn:E; [left; auto|].
    right. rewrite <- E, <- (replace_invalid_length name). apply strip_length.
  - right. now rewrite replace_invalid_length.
Qed.

Lemma replace_invalid_reserved (p rest : text) :
  all_alnum p ->
  rest = [] \/ rest = [newline] \/ (exists r, rest = dot :: r) ->
  exists rest', replace_invalid (p ++ rest) = p ++ rest' /\ tail_shape rest'.
Proof.
  intros Hp Hrest. unfold replace_invalid.
  destruct (has_invalid (p ++ rest)) eqn:E.
  - rewrite re_sub_app, (re_sub_fixed p) by now apply all_alnum_safe.
    exists (re_sub_forbidden rest). split; [reflexivity|].
    destruct Hrest as [->|[->|[r ->]]].
    + now left.
    + right. now left.
    + right. right. exists (re_sub_forbidden r). reflexivity.
  - exists rest. split; [reflexivity|].
    destruct Hrest as [->|[->|[r ->]]].
    + now left.
    + apply has_invalid_false in E. apply Forall_app in E as [_ E].
      inversion E; subst. discriminate.
    + right. right. eauto.
Qed.

Lemma rstrip_tail_shape (t : text) : tail_shape t -> tail_shape (Py.rstrip t).
Proof.
  intros [->|[->|[r ->]]].
  - now left.
  - right. now left.
  - destruct (rstrip_cons dot r) as [->|[r' ->]].
    + now left.
    + right. right. eauto.
Qed.

Lemma strip_reserved (p t : text) :
  all_alnum p -> p <> [] -> tail_shape t ->
  exists t', Py.strip (p ++ t) = p ++ t' /\ tail_shape t'.
Proof.
  intros Hp Hne Ht. unfold Py.strip.
  assert (Py.strip_char (hd dot (p ++ t)) = false) as Hhd.
  { rewrite hd_app_nonempty by exact Hne. apply alnum_plain.
    pose proof (hd_in p dot Hne) as Hin.
    unfold all_alnum in Hp. rewrite Forall_forall in Hp. now apply Hp. }
  rewrite (lstrip_clean _ Hhd), rstrip_app.
  pose proof (rstrip_tail_shape t Ht) as Ht'.
  destruct (Py.rstrip t) as [|c t'] eqn:E.
  - exists []. split; [|now left]. rewrite app_nil_r.
    apply rstrip_clean; [exact Hne|]. apply alnum_plain.
    pose proof (last_in p dot Hne) as Hin.
    unfold all_alnum in Hp. rewrite Forall_forall in Hp. now apply Hp.
  - exists (c :: t'). split; [reflexivity | exact Ht'].
Qed.

(** The trimmed form of a reserved name still starts with the device
    name. *)
Lemma reserved_trimmed (name : text) :
  is_reserved name = true ->
  exists p t, trimmed name = p ++ t /\ 3 <= length p /\ all_alnum p
              /\ tail_shape t /\ length (p ++ t) <= length name.
Proof.
  intros H. apply is_reserved_inv in H as (p & rest & -> & Hlen & Hp & Hrest).
  assert (p <> []) as Hne by (destruct p; [simpl in Hlen; lia | discriminate]).
  destruct (replace_invalid_reserved p rest Hp Hrest) as (rest' & E & Hshape).
  pose proof (replace_invalid_length (p ++ rest)) as Hl. rewrite E in Hl.
  unfold trimmed, remove_trailing. rewrite E.
  destruct (has_trailing (p ++ rest)).
  - destruct (strip_reserved p rest' Hp Hne Hshape) as (t' & Es & Hshape').
    pose proof (strip_length (p ++ rest')) as Hsl. rewrite Es in *.
    assert (match p ++ t' with [] => unnamed | _ :: _ => p ++ t' end = p ++ t')
      as Em by (destruct p; [congruence | reflexivity]).
    destruct (p ++ t') eqn:Ept; [destruct p; [congruence | discriminate]|].
    rewrite <- Ept in *.
    exists p, t'. repeat split; try assumption. lia.
  - exists p, rest'. repeat split; try assumption. lia.
Qed.

(** ** Enforcing the length (lines 81-85) *)

Lemma limit_length_short (max_length : Z) (s : text) :
  (Py.len s <= max_length)%Z -> limit_length max_length s = s.
Proof.
  intros H. unfold limit_length.
  now replace (max_length <? Py.len s)%Z with false
    by (symmetry; apply Z.ltb_ge; lia).
Qed.

Lemma limit_length_forall (P : char -> Prop) (max_length : Z) (s : text) :
  Forall P s -> Forall P (limit_length max_length s).
Proof.
  intros H. unfold limit_length. destruct (_ <? _)%Z; [|exact H].
  destruct (splitext_forall P s H) as [Hb He].
  destruct (Py.splitext s) as [base ext]. simpl in *.
  apply Forall_app. split; [now apply slice_to_forall | exact He].
Qed.

Lemma limit_length_unnamed (max_length : Z) :
  (1 <= max_length)%Z ->
  clean_edges (limit_length max_length unnamed)
  /\ (Py.len (limit_length max_length unnamed) <= max_length)%Z.
Proof.
  intros H. destruct (Z_lt_le_dec max_length 7) as [Hlt|Hge].
  - assert (max_length = 1 \/ max_length = 2 \/ max_length = 3
            \/ max_length = 4 \/ max_length = 5 \/ max_length = 6)%Z
      as Hcases by lia.
    destruct Hcases as [->|[->|[->|[->|[->| ->]]]]];
      (split; [repeat split; discriminate | vm_compute; discriminate]).
  - rewrite limit_length_short by (vm_compute Py.len; lia).
    split; [apply unnamed_clean | vm_compute Py.len; lia].
Qed.

(** A name that has a dot, no separator and does not start with a dot
    splits. *)
Lemma splitext_must_split (c : char) (s : text) :
  c <> dot -> ~ In slash (c :: s) -> In dot (c :: s) ->
  exists a e, Py.splitext (c :: s) = (a, dot :: e) /\ c :: s = a ++ dot :: e
              /\ a <> [].
Proof.
  intros Hc Hs Hd.
  destruct (last_occurrence dot (c :: s)) as [H|(a & e & E & He)]; [tauto|].
  assert (a <> []) as Ha.
  { intros ->. simpl in E. congruence. }
  rewrite E in Hs. rewrite E.
  assert (~ In slash a) as Hsa by (rewrite in_app_iff in Hs; tauto).
  assert (~ In slash e) as Hse
    by (rewrite in_app_iff in Hs; simpl in Hs; tauto).
  rewrite splitext_sep_before, (basename_plain a Hsa) by assumption.
  exists a, e. repeat split; [|exact Ha].
  replace (existsb not_dot a) with true; [reflexivity|].
  symmetry. apply existsb_exists. exists c. split.
  - destruct a as [|x a]; [congruence|]. injection E as -> _. now left.
  - unfold not_dot. apply negb_true_iff. now apply N.eqb_neq.
Qed.

Lemma length_firstn_le (k : nat) (s : text) :
  k <= length s -> length (firstn k s) = k.
Proof. intros H. rewrite length_firstn. lia. Qed.

Lemma slice_to_nonneg (s : text) (k : Z) :
  (0 <= k)%Z -> Py.slice_to s k = firstn (Z.to_nat k) s.
Proof.
  intros H. unfold Py.slice_to.
  now replace (k <? 0)%Z with false by (symmetry; apply Z.ltb_ge; lia).
Qed.

(** The escaped reserved name, cut to the limit. *)
Lemma limit_length_reserved (max_length : Z) (p t : text) :
  3 <= length p -> all_alnum p -> tail_shape t ->
  all_safe (p ++ t) -> clean_edges (p ++ t) ->
  (Py.len (p ++ t) <= max_length)%Z ->
  let r := limit_length max_length (underscore :: p ++ t) in
  clean_edges r /\ (Py.len r <= max_length)%Z /\ hd dot r = underscore.
Proof.
  intros Hlen Hp Ht Hsafe Hclean Hfit.
  set (x := p ++ t) in *. set (s := underscore :: x).
  assert (x <> []) as Hx by apply Hclean.
  assert (3 <= length x) as Hx3 by (unfold x; rewrite length_app; lia).
  assert (clean_edges s) as Hs.
  { split; [discriminate|]. split; [reflexivity|].
    unfold s. change (underscore :: x) with ([underscore] ++ x).
    rewrite last_app_nonempty by exact Hx. apply Hclean. }
  destruct (Z_le_gt_dec (Py.len s) max_length) as [Hle|Hgt].
  { intros r. subst r. fold s. rewrite limit_length_short by exact Hle.
    repeat split; try apply Hs. exact Hle. }
  assert (Py.len s = max_length + 1)%Z as Hs_len.
  { unfold s, Py.len in *. simpl length in *. lia. }
  intros r. subst r. fold s. unfold limit_length.
  replace (max_length <? Py.len s)%Z with true
    by (symmetry; apply Z.ltb_lt; lia).
  assert (In dot s \/ all_plain s) as [Hdot|Hplain].
  { destruct Ht as [->|[->|[r0 ->]]].
    - right. unfold s, x. rewrite app_nil_r. constructor;
        [reflexivity | now apply all_alnum_plain].
    - right. unfold s, x. constructor; [reflexivity|].
      apply Forall_app. split; [now apply all_alnum_plain|].
      now repeat constructor.
    - left. unfold s, x. right. apply in_or_app. right. now left. }
  - (* the name splits: the base loses its last character *)
    assert (~ In slash s) as Hns.
    { unfold s. intros [H|H]; [discriminate|].
      now apply (all_safe_no_slash x Hsafe). }
    destruct (splitext_must_split underscore x) as (a & e & E & Es & Ha);
      [discriminate | exact Hns | exact Hdot |].
    fold s in E, Es. rewrite E.
    assert (Py.len s = Py.len a + Py.len (dot :: e))%Z as Hsum
      by (rewrite Es; apply len_app).
    rewrite slice_to_nonneg by (pose proof (len_nonneg a);
                                 destruct a; [congruence|];
                                 unfold Py.len in *; simpl length in *; lia).
    replace (Z.to_nat (max_length - Py.len (dot :: e))) with (length a - 1)
      by (unfold Py.len in *; lia).
    destruct a as [|c0 a']; [congruence|].
    assert (c0 = underscore) as -> by (unfold s in Es; now injection Es).
    assert (a' <> []) as Ha'.
    { intros ->. unfold s in Es. simpl in Es. injection Es as Ex.
      destruct Hclean as (_ & Hhd & _). rewrite Ex in Hhd. discriminate. }
    destruct a' as [|c1 a'']; [congruence|].
    simpl length. replace (S (S (length a'')) - 1) with (S (length a'')) by lia.
    rewrite firstn_cons.
    repeat split.
    + discriminate.
    + rewrite last_app_nonempty by discriminate.
      destruct Hs as (_ & _ & Hl). rewrite Es in Hl.
      now rewrite last_app_nonempty in Hl by discriminate.
    + change (Py.len ((underscore :: firstn (length a'') (c1 :: a''))
                      ++ dot :: e) <= max_length)%Z.
      rewrite len_app. unfold Py.len in *. simpl length in *.
      rewrite length_firstn. lia.
  - (* no dot: the name loses its last character *)
    assert (~ In dot s) as Hnd.
    { intros Hin. unfold all_plain in Hplain. rewrite Forall_forall in Hplain.
      apply Hplain in Hin. discriminate. }
    rewrite (splitext_no_dot s Hnd).
    change (Py.len []) with 0%Z. rewrite Z.sub_0_r, app_nil_r.
    rewrite slice_to_nonneg by (unfold Py.len in *; lia).
    assert (0 < Z.to_nat max_length <= length s) as Hk
      by (unfold s, Py.len in *; simpl length in *; lia).
    assert (firstn (Z.to_nat max_length) s <> []) as Hne.
    { intros H. apply (f_equal (@length char)) in H.
      rewrite length_firstn_le in H by lia. simpl in H. lia. }
    repeat split.
    + exact Hne.
    + apply all_plain_clean; [exact Hne | now apply firstn_forall].
    + apply all_plain_clean; [exact Hne | now apply firstn_forall].
    + unfold Py.len. rewrite length_firstn_le by lia. lia.
    + unfold s. destruct (Z.to_nat max_length); [lia | reflexivity].
Qed.

(** ** What line 87 starts from *)

Theorem new_name_safe (max_length : Z) (name : text) :
  all_safe (new_name_of max_length name).
Proof.
  unfold new_name_of. apply limit_length_forall.
  rewrite fixed_name_trimmed. unfold handle_reserved.
  pose proof (trimmed_safe name).
  destruct (is_reserved name); [constructor; [reflexivity|] |]; assumption.
Qed.

Theorem new_name_facts (max_length : Z) (name : text) :
  needs_fix name = true -> (Py.len name <= max_length)%Z ->
  clean_edges (new_name_of max_length name)
  /\ (Py.len (new_name_of max_length name) <= max_length)%Z
  /\ (is_reserved name = true ->
      hd dot (new_name_of max_length name) = underscore).
Proof.
  intros Hfix Hfit. pose proof (needs_fix_nonempty name Hfix) as Hne.
  unfold new_name_of. rewrite fixed_name_trimmed. unfold handle_reserved.
  destruct (is_reserved name) eqn:Hres.
  - destruct (reserved_trimmed name Hres) as (p & t & E & Hlen & Hp & Ht & Hl).
    pose proof (trimmed_safe name) as Hsafe.
    pose proof (trimmed_clean name Hne) as Hclean.
    rewrite E in *.
    destruct (limit_length_reserved max_length p t) as (H1 & H2 & H3);
      try assumption; [unfold Py.len in *; lia|].
    auto.
  - destruct (trimmed_length name) as [(_ & _ & ->)|Hl].
    + assert (1 <= max_length)%Z as H1.
      { destruct name; [congruence|]. unfold Py.len in Hfit.
        simpl length in Hfit. lia. }
      destruct (limit_length_unnamed max_length H1) as [Hc Hl].
      split; [exact Hc|]. split; [exact Hl | intros; discriminate].
    + rewrite limit_length_short by (unfold Py.len in *; lia).
      split; [exact (trimmed_clean name Hne)|].
      split; [unfold Py.len in *; lia | intros; discriminate].
Qed.

(** ** The name the collision loop ends with *)

Lemma format_alnum (k : nat) : all_alnum (Py.format k).
Proof.
  eapply Forall_impl; [|apply format_digits]. exact digit_alnum.
Qed.

Lemma splitext_fst_head (n : text) :
  n <> [] ->
  fst (Py.splitext n) <> [] /\ hd dot (fst (Py.splitext n)) = hd dot n.
Proof.
  intros Hn. destruct (splitext_shape n) as [|a e E _ _ Hex]; [auto|].
  simpl. assert (a <> []) as Ha by (intros ->; discriminate).
  split; [exact Ha|]. rewrite E. now rewrite hd_app_nonempty.
Qed.

Lemma next_name_safe (ext n : text) (k : nat) :
  snd (Py.splitext n) = ext -> all_safe n -> all_safe (next_name ext n k).
Proof.
  intros He Hn. destruct (splitext_forall _ n Hn) as [Hb Hx].
  unfold next_name. apply Forall_app. split; [exact Hb|].
  constructor; [reflexivity|]. apply Forall_app. split.
  - apply all_alnum_safe, format_alnum.
  - now rewrite <- He.
Qed.

Lemma next_name_clean (ext n : text) (k : nat) :
  ext = [] \/ Py.strip_char (last ext dot) = false ->
  clean_edges n ->
  clean_edges (next_name ext n k) /\ hd dot (next_name ext n k) = hd dot n.
Proof.
  intros Hext (Hne & Hhd & _).
  destruct (splitext_fst_head n Hne) as [Hb Hbh].
  unfold next_name.
  assert (hd dot (fst (Py.splitext n) ++ underscore :: Py.format k ++ ext)
          = hd dot n) as Hh by (now rewrite hd_app_nonempty).
  split; [|exact Hh]. split; [|split].
  - destruct (fst (Py.splitext n)); [congruence | discriminate].
  - now rewrite Hh.
  - rewrite last_app_nonempty by discriminate.
    change (underscore :: Py.format k ++ ext)
      with ((underscore :: Py.format k) ++ ext).
    destruct ext as [|c ext].
    + rewrite app_nil_r.
      change (underscore :: Py.format k) with ([underscore] ++ Py.format k).
      rewrite last_app_nonempty by apply format_nonempty.
      apply alnum_plain.
      pose proof (format_alnum k) as Hd. unfold all_alnum in Hd.
      rewrite Forall_forall in Hd. apply Hd, last_in, format_nonempty.
    + rewrite last_app_nonempty by discriminate.
      destruct Hext as [Hext|Hext]; [discriminate | exact Hext].
Qed.

Lemma splitext_ext_last (c : text) :
  clean_edges c ->
  snd (Py.splitext c) = []
  \/ Py.strip_char (last (snd (Py.splitext c)) dot) = false.
Proof.
  intros (_ & _ & Hlast).
  destruct (snd (Py.splitext c)) as [|x ext] eqn:E; [now left|].
  right. rewrite <- (splitext_app c), E in Hlast.
  now rewrite last_app_nonempty in Hlast by discriminate.
Qed.

(** Line 98 never fires: the name the loop ends with differs from the name
    of the entry, and no entry of the directory has it. *)
Theorem resolve_collision_fresh (max_length : Z) (root name : text)
        (es : listing) (r : text) :
  needs_fix name = true ->
  (max_length <? Py.len (Py.basename (Py.join root name)))%Z = false ->
  resolve_collision root (new_name_of max_length name) es = Some r ->
  r <> name /\ path_exists es r = false.
Proof.
  intros Hfix Hfit Hr. unfold resolve_collision in Hr.
  set (c := new_name_of max_length name) in *.
  rewrite splitext_join in Hr.
  set (ext := snd (Py.splitext c)) in *.
  assert (ext_shape ext) as Hshape by apply splitext_ext_shape.
  destruct (has_invalid name) eqn:Hinv.
  - (* the name has a forbidden character, the result has none *)
    destruct (fun Hstep H0 =>
                collision_loop_invariant
                  (fun n => all_safe n /\ snd (Py.splitext n) = ext)
                  (path_exists es) ext Hstep _ _ _ _ H0 Hr)
      as [[Hsafe _] Hfree].
    + intros n k [Hn He]. split; [now apply next_name_safe|].
      now rewrite next_name_splitext.
    + split; [apply new_name_safe | reflexivity].
    + split; [|exact Hfree]. intros ->.
      apply has_invalid_false in Hsafe. congruence.
  - (* the name is a plain component, so its own length was checked *)
    assert (Py.len name <= max_length)%Z as Hlen.
    { apply has_invalid_false, all_safe_no_slash in Hinv.
      rewrite (basename_join root name Hinv) in Hfit.
      now apply Z.ltb_ge in Hfit. }
    destruct (new_name_facts max_length name Hfix Hlen) as (Hclean & _ & Hres).
    fold c in Hclean, Hres.
    pose proof (splitext_ext_last c Hclean) as Hlast. fold ext in Hlast.
    destruct (fun Hstep H0 =>
                collision_loop_invariant
                  (fun n => (clean_edges n /\ hd dot n = hd dot c)
                            /\ snd (Py.splitext n) = ext)
                  (path_exists es) ext Hstep _ _ _ _ H0 Hr)
      as [[[Hrc Hrh] _] Hfree].
    + intros n k [[Hn Hh] He].
      destruct (next_name_clean ext n k Hlast Hn) as [Hc' Hh'].
      split; [split; [exact Hc' | congruence]|].
      now rewrite next_name_splitext.
    + repeat split; apply Hclean.
    + split; [|exact Hfree]. intros ->.
      unfold needs_fix in Hfix. rewrite Hinv in Hfix. simpl in Hfix.
      apply orb_true_iff in Hfix as [Ht|Hresv].
      * apply has_trailing_true in Ht. apply Ht. now apply strip_fixed_clean.
      * rewrite (Hres Hresv) in Hrh.
        destruct (is_reserved_head name Hresv) as [_ Hal].
        apply alnum_not_underscore in Hal. congruence.
Qed.

(** The name the loop ends with has no forbidden character, so no
    separator: joined to [root] it names an entry of that directory. *)
Lemma resolve_collision_safe (max_length : Z) (root name : text)
      (es : listing) (r : text) :
  resolve_collision root (new_name_of max_length name) es = Some r ->
  all_safe r /\ ~ In slash r.
Proof.
  intros Hr. unfold resolve_collision in Hr. rewrite splitext_join in Hr.
  set (ext := snd (Py.splitext (new_name_of max_length name))) in *.
  destruct (fun Hstep H0 =>
              collision_loop_invariant
                (fun n => all_safe n /\ snd (Py.splitext n) = ext)
                (path_exists es) ext Hstep _ _ _ _ H0 Hr)
    as [[Hsafe _] _].
  - intros n k [Hn He]. split; [now apply next_name_safe|].
    rewrite next_name_splitext; [reflexivity | apply splitext_ext_shape|].
    exact He.
  - split; [apply new_name_safe | reflexivity].
  - split; [exact Hsafe | now apply all_safe_no_slash].
Qed.

(** ** The loop body, case by case *)

Section Body.

Variable script_name : text.
Variable denied : text -> text -> bool.
Variable dry_run : bool.
Variable max_length : Z.

#[local] Abbreviation body :=
  (process_entry script_name denied dry_run max_length).

Lemma process_entry_script (root name : text) (es : listing)
      (s : run_state) :
  name = script_name ->
  body root name (es, s) = Some (es, note_visit root name s).
Proof.
  intros ->. unfold process_entry. now rewrite eqb_refl.
Qed.

Lemma process_entry_too_long (root name : text) (es : listing)
      (s : run_state) :
  name <> script_name ->
  (max_length < Py.len (Py.basename (Py.join root name)))%Z ->
  body root name (es, s)
  = Some (es, count_skipped (emit (TooLongWarning name)
                                  (note_visit root name s))).
Proof.
  intros Hn Hlong. unfold process_entry.
  apply eqb_neq in Hn. rewrite Hn.
  apply Z.ltb_lt in Hlong. now rewrite Hlong.
Qed.

Lemma process_entry_fine (root name : text) (es : listing)
      (s : run_state) :
  name <> script_name ->
  (Py.len (Py.basename (Py.join root name)) <= max_length)%Z ->
  needs_fix name = false ->
  body root name (es, s) = Some (es, note_visit root name s).
Proof.
  intros Hn Hfit Hfix. unfold process_entry.
  apply eqb_neq in Hn. rewrite Hn.
  apply Z.ltb_ge in Hfit. now rewrite Hfit, Hfix.
Qed.

Lemma process_entry_fix (root name : text) (es : listing)
      (s : run_state) :
  name <> script_name ->
  (Py.len (Py.basename (Py.join root name)) <= max_length)%Z ->
  needs_fix name = true ->
  exists new_name,
    resolve_collision root (new_name_of max_length name) es = Some new_name
    /\ new_name <> name /\ path_exists es new_name = false
    /\ body root name (es, s)
       = Some (report_and_rename denied dry_run root name new_name
                 (es, note_visit root name s)).
Proof.
  intros Hn Hfit Hfix. unfold process_entry.
  apply eqb_neq in Hn. rewrite Hn.
  apply Z.ltb_ge in Hfit. rewrite Hfit, Hfix.
  destruct (resolve_collision_total root (new_name_of max_length name) es)
    as [r Hr].
  destruct (resolve_collision_fresh max_length root name es r Hfix Hfit Hr)
    as [Hneq Hfree].
  exists r. rewrite Hr. apply eqb_neq in Hneq. rewrite Hneq.
  apply eqb_neq in Hneq. auto.
Qed.

(** The four cases are all there is. *)
Lemma process_entry_cases (root name : text) (es : listing)
      (s : run_state) :
  let s' := note_visit root name s in
  body root name (es, s) = Some (es, s')
  \/ body root name (es, s)
     = Some (es, count_skipped (emit (TooLongWarning name) s'))
  \/ exists new_name,
       needs_fix name = true /\ new_name <> name
       /\ body root name (es, s)
          = Some (report_and_rename denied dry_run root name new_name
                    (es, s')).
Proof.
  intros s'. destruct (list_eq_dec N.eq_dec name script_name) as [He|Hn].
  - left. now apply process_entry_script.
  - destruct (Z_lt_le_dec max_length
                (Py.len (Py.basename (Py.join root name)))) as [Hl|Hfit].
    + right. left. now apply process_entry_too_long.
    + destruct (needs_fix name) eqn:Hfix.
      * right. right.
        destruct (process_entry_fix root name es s Hn Hfit Hfix)
          as (r & _ & Hneq & _ & E).
        exists r. auto.
      * left. now apply process_entry_fine.
Qed.

End Body.

Lemma subseq_empty {A : Type} (l : list A) : subseq [] l.
Proof. induction l; constructor; assumption. Qed.

Lemma subseq_refl {A : Type} (l : list A) : subseq l l.
Proof. induction l; constructor; assumption. Qed.

Lemma subseq_app {A : Type} (a b c d : list A) :
  subseq a b -> subseq c d -> subseq (a ++ c) (b ++ d).
Proof.
  intros Hab Hcd. induction Hab; simpl; try constructor; assumption.
Qed.

(** ** What the loop body does to the state *)

Section Effects.

Variable script_name : text.
Variable denied : text -> text -> bool.
Variable max_length : Z.

#[local] Abbreviation body dry_run :=
  (process_entry script_name denied dry_run max_length).
#[local] Abbreviation entries dry_run :=
  (process_entries script_name denied dry_run max_length).
#[local] Abbreviation walk_in dry_run :=
  (walk script_name denied dry_run max_length).

Lemma process_entries_cons (dry_run : bool) (root name : text)
      (rest : list text) (w : listing * run_state) :
  entries dry_run root (name :: rest) w
  = match body dry_run root name w with
    | Some w' => entries dry_run root rest w'
    | None => None
    end.
Proof. reflexivity. Qed.

Lemma walk_dir (dry_run : bool) (root : text) (es : listing)
      (s : run_state) :
  walk_in dry_run root (Dir es) s
  = match descend (fun n c => walk_in dry_run (Py.join root n) c) es s with
    | None => None
    | Some w =>
        match entries dry_run root (dirs_of es ++ files_of es) w with
        | None => None
        | Some (es', s') => Some (Dir es', s')
        end
    end.
Proof. reflexivity. Qed.

Lemma descend_cons (visit : text -> node -> run_state ->
                            option (node * run_state))
      (n : text) (c : node) (l : listing) (s : run_state) :
  descend visit ((n, c) :: l) s
  = match visit n c s with
    | None => None
    | Some (c', s') =>
        match descend visit l s' with
        | None => None
        | Some (l'', s'') => Some ((n, c') :: l'', s'')
        end
    end.
Proof. reflexivity. Qed.

(** The three ways lines 101-132 can go. *)
Lemma report_and_rename_cases (dry_run : bool) (root name new_name : text)
      (es : listing) (s : run_state) :
  let s1 := emit (ChangeReport (negb dry_run) root name new_name
                    (has_invalid name) (has_trailing name)
                    (is_reserved name)) s in
  (dry_run = true
   /\ report_and_rename denied dry_run root name new_name (es, s)
      = (es, count_change s1))
  \/ (dry_run = false
      /\ exists es', os_rename denied root name new_name es = Some es'
         /\ report_and_rename denied dry_run root name new_name (es, s)
            = (es', count_change s1))
  \/ (dry_run = false
      /\ os_rename denied root name new_name es = None
      /\ report_and_rename denied dry_run root name new_name (es, s)
         = (es, count_error (emit (RenameError name) s1))).
Proof.
  intros s1. unfold report_and_rename. fold s1.
  destruct dry_run; [left; auto|]. right.
  destruct (os_rename denied root name new_name es) as [es'|].
  - left. split; [reflexivity|]. exists es'. auto.
  - right. auto.
Qed.

Lemma reported_app (a b : list event) :
  reported (a ++ b) = reported a ++ reported b.
Proof. apply flat_map_app. Qed.

Lemma findings_app (a b : list event) :
  findings (a ++ b) = findings a ++ findings b.
Proof. apply flat_map_app. Qed.

(** The body ends for every entry; it notes the entry, and reports at
    most that entry. *)
Lemma process_entry_trace (dry_run : bool) (root name : text)
      (es : listing) (s : run_state) :
  exists es' s' r,
    body dry_run root name (es, s) = Some (es', s')
    /\ visited s' = visited s ++ [(root, name)]
    /\ reported (output s') = reported (output s) ++ r
    /\ subseq r [(root, name)].
Proof.
  destruct (process_entry_cases script_name denied dry_run max_length
              root name es s) as [E|[E|(new_name & _ & _ & E)]].
  - exists es, (note_visit root name s), []. rewrite app_nil_r.
    repeat split; [exact E | apply subseq_empty].
  - eexists es, _, []. rewrite app_nil_r.
    split; [exact E|]. simpl. rewrite reported_app. simpl.
    rewrite app_nil_r. repeat split. apply subseq_empty.
  - destruct (report_and_rename_cases dry_run root name new_name es
                (note_visit root name s))
      as [[_ E']|[(_ & es' & _ & E')|(_ & _ & E')]];
      rewrite E' in E; eexists _, _, [(root, name)];
      (split; [exact E|]); simpl; rewrite ?reported_app; simpl;
      rewrite ?app_nil_r; repeat split; apply subseq_refl.
Qed.

Lemma process_entries_trace (dry_run : bool) (root : text)
      (names : list text) :
  forall (es : listing) (s : run_state),
  exists es' s' r,
    entries dry_run root names (es, s) = Some (es', s')
    /\ visited s' = visited s ++ map (pair root) names
    /\ reported (output s') = reported (output s) ++ r
    /\ subseq r (map (pair root) names).
Proof.
  induction names as [|name rest IH]; intros es s.
  - exists es, s, []. rewrite !app_nil_r. repeat split. constructor.
  - destruct (process_entry_trace dry_run root name es s)
      as (es1 & s1 & r1 & E1 & V1 & R1 & S1).
    destruct (IH es1 s1) as (es2 & s2 & r2 & E2 & V2 & R2 & S2).
    exists es2, s2, (r1 ++ r2). rewrite process_entries_cons, E1.
    split; [exact E2|]. split; [|split].
    + rewrite V2, V1, <- app_assoc. reflexivity.
    + rewrite R2, R1, <- app_assoc. reflexivity.
    + change (map (pair root) (name :: rest))
        with ([(root, name)] ++ map (pair root) rest).
      now apply subseq_app.
Qed.

(** The walk ends on every tree; the entries are taken in the bottom-up
    order of the tree as it was, and the changes are reported in that
    order. *)
Lemma walk_trace (dry_run : bool) (t : node) :
  forall (root : text) (s : run_state),
  exists t' s' r,
    walk_in dry_run root t s = Some (t', s')
    /\ visited s' = visited s ++ postorder root t
    /\ reported (output s') = reported (output s) ++ r
    /\ subseq r (postorder root t).
Proof.
  induction t as [content|es IH] using node_induction; intros root s.
  - exists (File content), s, []. rewrite !app_nil_r.
    repeat split. constructor.
  - assert (forall s0,
             exists es1 s1 r1,
               descend (fun n c => walk_in dry_run (Py.join root n) c) es s0
               = Some (es1, s1)
               /\ visited s1
                  = visited s0
                    ++ flat_map (fun e => postorder (Py.join root (fst e))
                                            (snd e)) es
               /\ reported (output s1) = reported (output s0) ++ r1
               /\ subseq r1
                    (flat_map (fun e => postorder (Py.join root (fst e))
                                          (snd e)) es)) as Hsub.
    { induction IH as [|[n c] l Hc _ IHl]; intros s0.
      - exists [], s0, []. rewrite !app_nil_r. repeat split. constructor.
      - simpl in Hc.
        destruct (Hc (Py.join root n) s0)
          as (c' & s1 & r1 & E1 & V1 & R1 & S1).
        destruct (IHl s1) as (l' & s2 & r2 & E2 & V2 & R2 & S2).
        exists ((n, c') :: l'), s2, (r1 ++ r2).
        rewrite descend_cons, E1, E2. simpl flat_map.
        split; [reflexivity|]. split; [|split].
        + rewrite V2, V1, <- app_assoc. reflexivity.
        + rewrite R2, R1, <- app_assoc. reflexivity.
        + now apply subseq_app. }
    destruct (Hsub s) as (es1 & s1 & r1 & E1 & V1 & R1 & S1).
    destruct (process_entries_trace dry_run root
                (dirs_of es ++ files_of es) es1 s1)
      as (es2 & s2 & r2 & E2 & V2 & R2 & S2).
    exists (Dir es2), s2, (r1 ++ r2).
    rewrite walk_dir, E1, E2. simpl postorder.
    split; [reflexivity|]. split; [|split].
    + rewrite V2, V1, <- app_assoc. reflexivity.
    + rewrite R2, R1, <- app_assoc. reflexivity.
    + now apply subseq_app.
Qed.

End Effects.

(** ** A dry run and a live run side by side *)

Section DryAndLive.

Variable script_name : text.
Variable denied : text -> text -> bool.
Variable max_length : Z.

#[local] Abbreviation body dry_run :=
  (process_entry script_name denied dry_run max_length).
#[local] Abbreviation entries dry_run :=
  (process_entries script_name denied dry_run max_length).
#[local] Abbreviation walk_in dry_run :=
  (walk script_name denied dry_run max_length).

Lemma process_entry_agree (root name : text) (es_d es_l : listing)
      (d l : run_state) :
  agree d l ->
  exists d' es_l' l',
    body true root name (es_d, d) = Some (es_d, d')
    /\ body false root name (es_l, l) = Some (es_l', l')
    /\ agree d' l'
    /\ error_count (counts d') = error_count (counts d).
Proof.
  intros (Hs & Hc & Hf).
  destruct (list_eq_dec N.eq_dec name script_name) as [He|Hn].
  { eexists _, _, _.
    rewrite !process_entry_script by exact He.
    repeat split; assumption. }
  destruct (Z_lt_le_dec max_length
              (Py.len (Py.basename (Py.join root name)))) as [Hl|Hfit].
  { eexists _, _, _.
    rewrite !process_entry_too_long by assumption.
    repeat split; simpl; try lia.
    rewrite !findings_app, Hf. reflexivity. }
  destruct (needs_fix name) eqn:Hfix.
  2:{ eexists _, _, _.
      rewrite !process_entry_fine by assumption.
      repeat split; assumption. }
  destruct (process_entry_fix script_name denied true max_length
              root name es_d d Hn Hfit Hfix) as (nd & _ & _ & _ & Ed).
  destruct (process_entry_fix script_name denied false max_length
              root name es_l l Hn Hfit Hfix) as (nl & _ & _ & _ & El).
  rewrite Ed, El.
  destruct (report_and_rename_cases denied true root name nd es_d
              (note_visit root name d))
    as [[_ Ed']|[(Hd & _)|(Hd & _)]]; try discriminate.
  rewrite Ed'.
  destruct (report_and_rename_cases denied false root name nl es_l
              (note_visit root name l))
    as [[Hl _]|[(_ & es' & _ & El')|(_ & _ & El')]]; try discriminate;
    rewrite El'; eexists _, _, _;
    (split; [reflexivity|]); (split; [reflexivity|]);
    (split; [|reflexivity]);
    repeat split; simpl; try lia;
    rewrite !findings_app, Hf; simpl; rewrite ?app_nil_r; reflexivity.
Qed.

Lemma process_entries_agree (root : text) (names : list text) :
  forall (es_d es_l : listing) (d l : run_state),
  agree d l ->
  exists d' es_l' l',
    entries true root names (es_d, d) = Some (es_d, d')
    /\ entries false root names (es_l, l) = Some (es_l', l')
    /\ agree d' l'
    /\ error_count (counts d') = error_count (counts d).
Proof.
  induction names as [|name rest IH]; intros es_d es_l d l H.
  - exists d, es_l, l. repeat split; apply H.
  - destruct (process_entry_agree root name es_d es_l d l H)
      as (d1 & es1 & l1 & Ed1 & El1 & H1 & He1).
    destruct (IH es_d es1 d1 l1 H1) as (d2 & es2 & l2 & Ed2 & El2 & H2 & He2).
    exists d2, es2, l2. rewrite !process_entries_cons, Ed1, El1.
    repeat split; try assumption; try apply H2. congruence.
Qed.

(** The dry walk gives the tree back; the live walk ends in a state that
    agrees with it. *)
Lemma walk_agree (t : node) :
  forall (root : text) (d l : run_state),
  agree d l ->
  exists d' t_l l',
    walk_in true root t d = Some (t, d')
    /\ walk_in false root t l = Some (t_l, l')
    /\ agree d' l'
    /\ error_count (counts d') = error_count (counts d).
Proof.
  induction t as [content|es IH] using node_induction; intros root d l H.
  - exists d, (File content), l. repeat split; apply H.
  - assert (forall d0 l0, agree d0 l0 ->
             exists d1 es1 l1,
               descend (fun n c => walk_in true (Py.join root n) c) es d0
               = Some (es, d1)
               /\ descend (fun n c => walk_in false (Py.join root n) c) es l0
                  = Some (es1, l1)
               /\ agree d1 l1
               /\ error_count (counts d1) = error_count (counts d0))
      as Hsub.
    { induction IH as [|[n c] rest Hc _ IHrest]; intros d0 l0 H0.
      - exists d0, [], l0. repeat split; apply H0.
      - simpl in Hc.
        destruct (Hc (Py.join root n) d0 l0 H0)
          as (d1 & c1 & l1 & Ed1 & El1 & H1 & He1).
        destruct (IHrest d1 l1 H1) as (d2 & es2 & l2 & Ed2 & El2 & H2 & He2).
        exists d2, ((n, c1) :: es2), l2.
        unfold listing in *.
        rewrite !descend_cons, Ed1, El1. cbv beta iota. rewrite Ed2, El2.
        repeat split; try apply H2. congruence. }
    destruct (Hsub d l H) as (d1 & es1 & l1 & Ed1 & El1 & H1 & He1).
    destruct (process_entries_agree root (dirs_of es ++ files_of es)
                es es1 d1 l1 H1) as (d2 & es2 & l2 & Ed2 & El2 & H2 & He2).
    exists d2, (Dir es2), l2.
    unfold listing in *.
    rewrite !walk_dir, Ed1, El1. cbv beta iota. rewrite Ed2, El2.
    repeat split; try apply H2. congruence.
Qed.

End DryAndLive.

(** ** The bottom-up order *)

Lemma dirs_of_app (a b : listing) : dirs_of (a ++ b) = dirs_of a ++ dirs_of b.
Proof. unfold dirs_of. now rewrite filter_app, map_app. Qed.

(** In the bottom-up order the entries of a sub-directory all come before
    the entry of that sub-directory. *)
Lemma postorder_subtree_first (root n : text) (sub : listing)
      (before after : listing) :
  exists mid tail,
    postorder root (Dir (before ++ (n, Dir sub) :: after))
    = flat_map (fun e => postorder (Py.join root (fst e)) (snd e)) before
      ++ postorder (Py.join root n) (Dir sub)
      ++ mid ++ (root, n) :: tail.
Proof.
  exists (flat_map (fun e => postorder (Py.join root (fst e)) (snd e)) after
          ++ map (pair root) (dirs_of before)),
         (map (pair root) (dirs_of after
                           ++ files_of (before ++ (n, Dir sub) :: after))).
  change (postorder root (Dir (before ++ (n, Dir sub) :: after)))
    with (flat_map (fun e => postorder (Py.join root (fst e)) (snd e))
                   (before ++ (n, Dir sub) :: after)
          ++ map (pair root) (dirs_of (before ++ (n, Dir sub) :: after)
                              ++ files_of (before ++ (n, Dir sub) :: after))).
  rewrite flat_map_app, dirs_of_app.
  change (dirs_of ((n, Dir sub) :: after)) with (n :: dirs_of after).
  change (flat_map (fun e => postorder (Py.join root (fst e)) (snd e))
                   ((n, Dir sub) :: after))
    with (postorder (Py.join root n) (Dir sub)
          ++ flat_map (fun e => postorder (Py.join root (fst e)) (snd e))
               after).
  rewrite <- !app_assoc, !map_app. simpl. rewrite <- !app_assoc. reflexivity.
Qed.

(** * The properties of the specification *)

(** ** The corrected name *)

(** What the corrected name of an entry always satisfies: no forbidden
    character, clean edges (so it is not empty), the length limit, and a
    name that was reserved is reserved no more. *)
Theorem sanitized_sound (max_length : Z) (name : text) :
  name <> [] -> (Py.len name <= max_length)%Z ->
  all_safe (sanitized max_length name)
  /\ clean_edges (sanitized max_length name)
  /\ (Py.len (sanitized max_length name) <= max_length)%Z
  /\ (is_reserved name = true ->
      is_reserved (sanitized max_length name) = false).
Proof.
  intros Hne Hfit. unfold sanitized.
  destruct (needs_fix name) eqn:Hfix.
  - destruct (new_name_facts max_length name Hfix Hfit) as (Hc & Hl & Hr).
    repeat split; try apply Hc; [apply new_name_safe | exact Hl|].
    intros Hres. specialize (Hr Hres).
    destruct (is_reserved (new_name_of max_length name)) eqn:E; [|reflexivity].
    destruct (is_reserved_head _ E) as [_ Hal].
    rewrite Hr in Hal. discriminate.
  - unfold needs_fix in Hfix.
    apply orb_false_iff in Hfix as [Hfix Hres].
    apply orb_false_iff in Hfix as [Hinv Htr].
    split; [now apply has_invalid_false|].
    split; [|split; [exact Hfit | congruence]].
    apply has_trailing_false, strip_fixed in Htr. tauto.
Qed.

(** C1.  The corrected name can be a reserved device name: the reserved
    pattern is tried on the name as it was, and trimming comes after.  The
    name [" CON"] (a space, then CON), within the limit, is corrected to
    ["CON"], which the pattern matches. *)
Theorem sanitized_reserved_after_trim :
  (Py.len (str " CON") <= 255)%Z
  /\ sanitized 255 (str " CON") = str "CON"
  /\ is_reserved (sanitized 255 (str " CON")) = true.
Proof. repeat split; vm_compute; congruence. Qed.

(** C2.  Correcting a corrected name can change it again: [" CON"] becomes
    ["CON"], on which the reserved-name detection fires, and which becomes
    ["_CON"]. *)
Theorem resanitize_changes_name :
  let once := sanitized 255 (str " CON") in
  is_reserved once = true
  /\ needs_fix once = true
  /\ sanitized 255 once = str "_CON"
  /\ sanitized 255 once <> once.
Proof. repeat split; vm_compute; congruence. Qed.

(** ** Collisions *)

(** C3.  With [a_b.txt] and [a_b_1.txt] in the directory, the candidate
    [a_b.txt] ends as [a_b_1_2.txt], not [a_b_2.txt]: every round appends
    to the name of the round before. *)
Theorem collision_suffixes_pile_up :
  sanitized 255 (str "a:b.txt") = str "a_b.txt"
  /\ resolve_collision (str "r") (str "a_b.txt") dir_collision
     = Some (str "a_b_1_2.txt")
  /\ option_map fst
       (sanitize_ntfs_names the_script allow_all false 255 (str "r")
          (Dir dir_collision))
     = Some (Dir [ (str "a_b.txt", File []); (str "a_b_1.txt", File []);
                   (str "a_b_1_2.txt", File []) ]).
Proof. repeat split; vm_compute; reflexivity. Qed.

(** C9.  The suffix is appended after the length was enforced, and the
    length is not enforced again.  The entry [con.txt] with the limit 7 is
    fixed to [_con.txt], of length 8, over the limit, so that lines 81-85
    cut it to the candidate [_co.txt], of length 7.  With an entry of that
    name in the directory the loop ends on [_co_1.txt], of length 9, and
    the entry is renamed to it. *)
Theorem collision_suffix_ignores_limit :
  exists (name : text) (max_length : Z) (es : listing) (final : text),
    (Py.len name <= max_length)%Z
    /\ needs_fix name = true
    /\ fixed_name name = str "_con.txt"
    /\ (max_length < Py.len (fixed_name name))%Z
    /\ new_name_of max_length name = str "_co.txt"
    /\ (Py.len (new_name_of max_length name) < Py.len (fixed_name name))%Z
    /\ Py.len (new_name_of max_length name) = max_length
    /\ path_exists es (new_name_of max_length name) = true
    /\ resolve_collision (str "r") (new_name_of max_length name) es
       = Some final
    /\ final = str "_co_1.txt"
    /\ (max_length < Py.len final)%Z
    /\ option_map fst
         (sanitize_ntfs_names the_script allow_all false max_length (str "r")
            (Dir es))
       = Some (Dir [ (str "_co.txt", File []); (final, File []) ]).
Proof.
  exists (str "con.txt"), 7%Z, dir_truncated, (str "_co_1.txt").
  repeat split; vm_compute; congruence.
Qed.

(** ** The substitution *)

(** C5.  The substitution keeps the length of the name, puts one underscore
    in the place of every forbidden character and leaves every other
    character where it is; [a:b*c?.txt] becomes [a_b_c_.txt]. *)
Theorem substitution_replaces_each_forbidden :
  (forall name : text,
      has_invalid name = true ->
      replace_invalid name = re_sub_forbidden name
      /\ length (replace_invalid name) = length name
      /\ forall (i : nat) (c : char),
           nth_error name i = Some c ->
           nth_error (replace_invalid name) i
           = Some (if is_forbidden c then underscore else c))
  /\ sanitized 255 (str "a:b*c?.txt") = str "a_b_c_.txt".
Proof.
  split; [|reflexivity].
  intros name H. unfold replace_invalid. rewrite H.
  split; [reflexivity|]. split; [apply re_sub_length|].
  intros i c Hc. unfold re_sub_forbidden.
  now rewrite nth_error_map, Hc.
Qed.

(** The name [a?b]. *)
Lemma substitution_replaces_each_forbidden_witness :
  has_invalid (str "a?b") = true
  /\ replace_invalid (str "a?b") = str "a_b".
Proof.
  split; [reflexivity|].
  destruct substitution_replaces_each_forbidden as [H _].
  destruct (H (str "a?b") eq_refl) as [-> _]. reflexivity.
Defined.

(** C10.  A name made of forbidden characters only is corrected to as many
    underscores, not to the placeholder.  The placeholder comes out exactly
    when trimming the (possibly substituted) name leaves nothing, unless
    the name trims to the very word of the placeholder. *)
Theorem forbidden_only_name_becomes_underscores :
  (forall (max_length : Z) (name : text),
      name <> [] -> Forall (fun c => is_forbidden c = true) name ->
      (Py.len name <= max_length)%Z ->
      fixed_name name = repeat underscore (length name)
      /\ sanitized max_length name = repeat underscore (length name)
      /\ sanitized max_length name <> unnamed)
  /\ (forall name : text,
         name <> [] -> Py.strip (replace_invalid name) = [] ->
         fixed_name name = unnamed)
  /\ (forall name : text,
         fixed_name name = unnamed ->
         Py.strip (replace_invalid name) = []
         \/ Py.strip (replace_invalid name) = unnamed)
  /\ sanitized 255 (str "???") = str "___".
Proof.
  split; [|split; [|split; [|reflexivity]]].
  - intros max_length name Hne Hall Hfit.
    assert (has_invalid name = true) as Hinv.
    { apply has_invalid_true. destruct name as [|c r]; [congruence|].
      exists c. split; [now left | now inversion Hall]. }
    assert (re_sub_forbidden name = repeat underscore (length name)) as Hsub.
    { clear Hne Hfit Hinv. unfold re_sub_forbidden.
      induction Hall as [|c r Hc _ IH]; [reflexivity|].
      simpl. now rewrite Hc, IH. }
    assert (all_plain name) as Hplain.
    { eapply Forall_impl; [|exact Hall]. intros c Hc.
      destruct (Py.strip_char c) eqn:E; [|reflexivity].
      apply strip_char_safe in E. congruence. }
    assert (has_trailing name = false) as Htr.
    { apply has_trailing_false, strip_fixed_clean.
      now apply all_plain_clean. }
    assert (is_reserved name = false) as Hres.
    { destruct (is_reserved name) eqn:E; [|reflexivity].
      destruct (is_reserved_head name E) as [_ Hal].
      apply alnum_safe in Hal.
      pose proof (hd_in name dot Hne) as Hin.
      rewrite Forall_forall in Hall. apply Hall in Hin. congruence. }
    assert (fixed_name name = repeat underscore (length name)) as Hfixed.
    { unfold fixed_name, handle_reserved, remove_trailing, replace_invalid.
      now rewrite Hres, Htr, Hinv. }
    split; [exact Hfixed|].
    assert (sanitized max_length name = repeat underscore (length name)) as E.
    { unfold sanitized, needs_fix, new_name_of. rewrite Hinv. simpl.
      rewrite Hfixed. apply limit_length_short.
      unfold Py.len in *. now rewrite repeat_length. }
    split; [exact E|]. rewrite E.
    destruct name as [|c r]; [congruence|]. simpl. discriminate.
  - intros name Hne Hstrip.
    assert (has_trailing name = true) as Htr.
    { destruct (has_trailing name) eqn:E; [reflexivity|].
      apply has_trailing_false, strip_fixed in E.
      destruct E as [E|E]; [congruence|].
      apply replace_invalid_clean_edges, strip_fixed_clean in E.
      rewrite Hstrip in E.
      pose proof (replace_invalid_length name) as Hl. rewrite <- E in Hl.
      destruct name; [congruence | discriminate]. }
    assert (is_reserved name = false) as Hres.
    { destruct (is_reserved name) eqn:E; [|reflexivity].
      apply is_reserved_inv in E as (p & rest & -> & Hlen & Hp & Hrest).
      destruct (replace_invalid_reserved p rest Hp Hrest) as (r' & E1 & Hs).
      assert (p <> []) as Hp' by (destruct p; [simpl in Hlen; lia | discriminate]).
      destruct (strip_reserved p r' Hp Hp' Hs) as (t' & E2 & _).
      rewrite E1, E2 in Hstrip. apply app_eq_nil in Hstrip. tauto. }
    unfold fixed_name, handle_reserved, remove_trailing.
    now rewrite Hres, Htr, Hstrip.
  - intros name H. unfold fixed_name, handle_reserved, remove_trailing in H.
    destruct (is_reserved name); [discriminate|].
    destruct (has_trailing name).
    + destruct (Py.strip (replace_invalid name)); [now left | now right].
    + right. rewrite H. reflexivity.
Qed.

(** The name of the three characters less-than, bar, greater-than. *)
Lemma forbidden_only_name_becomes_underscores_witness :
  sanitized 5 (str "<|>") = repeat underscore 3.
Proof.
  destruct forbidden_only_name_becomes_underscores as [H _].
  destruct (H 5%Z (str "<|>")) as (_ & E & _).
  - discriminate.
  - repeat constructor.
  - vm_compute. discriminate.
  - exact E.
Defined.

(** ** The walk *)

(** C4, as stated, fails for the entry that bears the name of the script:
    line 40 passes it over before its length is looked at, and the skipped
    counter stays where it was. *)
Lemma too_long_script_entry_not_counted :
  (5 < Py.len the_script)%Z
  /\ exists s',
       process_entry the_script allow_all false 5 (str "r") the_script
         (dir_script, initial_state) = Some (dir_script, s')
       /\ skipped_count (counts s') = skipped_count (counts initial_state)
       /\ output s' = [].
Proof.
  split; [vm_compute; reflexivity|].
  eexists. split; [vm_compute; reflexivity|]. split; reflexivity.
Qed.

(** C4, amended.  An entry other than the script itself whose name (a path
    component, so without a separator) is longer than the limit is skipped:
    the skipped counter goes up by one, the other two counters and the
    directory stay as they are, only the warning is printed, and the loop
    goes on with the next entry. *)
Theorem too_long_entry_skipped
        (script_name : text) (denied : text -> text -> bool) (dry_run : bool)
        (max_length : Z) (root name : text) (rest : list text)
        (es : listing) (s : run_state) :
  name <> script_name -> ~ In slash name ->
  (max_length < Py.len name)%Z ->
  exists s',
    process_entry script_name denied dry_run max_length root name (es, s)
    = Some (es, s')
    /\ skipped_count (counts s') = S (skipped_count (counts s))
    /\ change_count (counts s') = change_count (counts s)
    /\ error_count (counts s') = error_count (counts s)
    /\ output s' = output s ++ [TooLongWarning name]
    /\ process_entries script_name denied dry_run max_length root
         (name :: rest) (es, s)
       = process_entries script_name denied dry_run max_length root
           rest (es, s').
Proof.
  intros Hn Hplain Hlong.
  eexists. rewrite process_entries_cons.
  rewrite process_entry_too_long
    by (try rewrite basename_join; assumption).
  repeat split.
Qed.

(** The entry [abcdefgh] under the limit 5. *)
Lemma too_long_entry_skipped_witness :
  exists s',
    process_entry the_script allow_all false 5 (str "r") (str "abcdefgh")
      (dir_long, initial_state) = Some (dir_long, s')
    /\ skipped_count (counts s') = 1.
Proof.
  destruct (too_long_entry_skipped the_script allow_all false 5 (str "r")
              (str "abcdefgh") [] dir_long initial_state)
    as (s' & E & Hs & _).
  - vm_compute. discriminate.
  - vm_compute. intuition discriminate.
  - vm_compute. reflexivity.
  - exists s'. split; [exact E | exact Hs].
Defined.

(** C6, as stated, fails when the host refuses a rename: the dry run counts
    the entry as renamed, the live run counts an error. *)
Lemma dry_run_counts_differ_on_failure :
  option_map (fun r => counts (snd r))
    (sanitize_ntfs_names the_script deny_all true 255 (str "r") tree_nested)
  = Some (Counters 2 0 0)
  /\ option_map (fun r => counts (snd r))
       (sanitize_ntfs_names the_script deny_all false 255 (str "r")
          tree_nested)
     = Some (Counters 0 0 2).
Proof. split; vm_compute; reflexivity. Qed.

(** C6, amended.  A dry run ends, leaves the tree as it is and counts no
    error.  Next to the live run on the same tree it has the same findings
    (the same warnings and the same reasons for the same entries, in the
    same order), the same skipped count, and a renamed count that is the
    sum of the renamed and error counts of the live run; so the three
    counts are the same when no rename fails. *)
Theorem dry_run_reports_like_live
        (script_name : text) (denied : text -> text -> bool)
        (max_length : Z) (root_dir : text) (t : node) :
  exists (d : run_state) (t_l : node) (l : run_state),
    sanitize_ntfs_names script_name denied true max_length root_dir t
    = Some (t, d)
    /\ sanitize_ntfs_names script_name denied false max_length root_dir t
       = Some (t_l, l)
    /\ findings (output d) = findings (output l)
    /\ skipped_count (counts d) = skipped_count (counts l)
    /\ change_count (counts d)
       = change_count (counts l) + error_count (counts l)
    /\ error_count (counts d) = 0
    /\ (error_count (counts l) = 0 -> counts d = counts l).
Proof.
  unfold sanitize_ntfs_names.
  destruct (walk_agree script_name denied max_length t root_dir
              initial_state initial_state)
    as (d & t_l & l & Ed & El & (Hs & Hc & Hf) & He).
  { repeat split. }
  simpl in He.
  exists d, t_l, l. repeat split; try assumption; try lia.
  intros H0. destruct (counts d), (counts l). simpl in *.
  f_equal; lia.
Qed.

(** A tree on which no rename fails: the counts are the same. *)
Lemma dry_run_reports_like_live_witness :
  exists (d : run_state) (t_l : node) (l : run_state),
    sanitize_ntfs_names the_script allow_all true 255 (str "r") tree_nested
    = Some (tree_nested, d)
    /\ sanitize_ntfs_names the_script allow_all false 255 (str "r")
         tree_nested = Some (t_l, l)
    /\ counts d = counts l.
Proof.
  destruct (dry_run_reports_like_live the_script allow_all 255 (str "r")
              tree_nested)
    as (d & t_l & l & Ed & El & _ & _ & _ & _ & H).
  exists d, t_l, l. split; [exact Ed|]. split; [exact El|].
  apply H.
  assert (option_map (fun r => error_count (counts (snd r)))
            (sanitize_ntfs_names the_script allow_all false 255 (str "r")
               tree_nested) = Some 0) as E by (vm_compute; reflexivity).
  rewrite El in E. simpl in E. now injection E.
Defined.

(** C7.  When the host refuses the rename of an entry in a live run, the
    error counter goes up by one, the renamed and skipped counters and the
    directory stay as they are, the error is printed with the name of the
    entry, and the loop goes on with the next entry. *)
Theorem rename_failure_recovered
        (script_name : text) (denied : text -> text -> bool)
        (max_length : Z) (root name new_name : text) (rest : list text)
        (es : listing) (s : run_state) :
  name <> script_name ->
  (Py.len (Py.basename (Py.join root name)) <= max_length)%Z ->
  needs_fix name = true ->
  resolve_collision root (new_name_of max_length name) es = Some new_name ->
  os_rename denied root name new_name es = None ->
  exists s',
    process_entry script_name denied false max_length root name (es, s)
    = Some (es, s')
    /\ error_count (counts s') = S (error_count (counts s))
    /\ change_count (counts s') = change_count (counts s)
    /\ skipped_count (counts s') = skipped_count (counts s)
    /\ output s'
       = output s
         ++ [ChangeReport true root name new_name (has_invalid name)
               (has_trailing name) (is_reserved name);
             RenameError name]
    /\ process_entries script_name denied false max_length root
         (name :: rest) (es, s)
       = process_entries script_name denied false max_length root
           rest (es, s').
Proof.
  intros Hn Hfit Hfix Hres Hfail.
  destruct (process_entry_fix script_name denied false max_length
              root name es s Hn Hfit Hfix) as (r & Hr & _ & _ & E).
  rewrite Hres in Hr. injection Hr as <-.
  eexists. rewrite process_entries_cons, E.
  unfold report_and_rename. rewrite Hfail. simpl negb.
  repeat split. simpl. now rewrite <- app_assoc.
Qed.

(** The entry [a:b.txt] on a host that refuses every rename. *)
Lemma rename_failure_recovered_witness :
  exists s',
    process_entry the_script deny_all false 255 (str "r") (str "a:b.txt")
      (dir_collision, initial_state) = Some (dir_collision, s')
    /\ error_count (counts s') = 1
    /\ change_count (counts s') = 0.
Proof.
  destruct (rename_failure_recovered the_script deny_all 255 (str "r")
              (str "a:b.txt") (str "a_b_1_2.txt") [] dir_collision
              initial_state)
    as (s' & E & He & Hc & _).
  - vm_compute. discriminate.
  - vm_compute. discriminate.
  - reflexivity.
  - vm_compute. reflexivity.
  - reflexivity.
  - exists s'. split; [exact E|]. split; [exact He | exact Hc].
Defined.

(** C8.  The walk is bottom-up.  On every tree, in either mode, it ends;
    the entries are taken in the order [postorder] of the tree as it was
    given, with the paths that tree had, and the changes are reported (and
    made) in that order.  In that order all the entries of a sub-directory
    come before the entry of the sub-directory itself.  For a directory
    [d:x] that holds a file [f?y], the file is renamed first, under the
    path [r/d:x], and the directory after it. *)
Theorem walk_is_bottom_up :
  (forall (script_name : text) (denied : text -> text -> bool)
          (dry_run : bool) (max_length : Z) (root : text) (t : node)
          (s : run_state),
      exists (t' : node) (s' : run_state) (r : list (text * text)),
        walk script_name denied dry_run max_length root t s = Some (t', s')
        /\ visited s' = visited s ++ postorder root t
        /\ reported (output s') = reported (output s) ++ r
        /\ subseq r (postorder root t))
  /\ (forall (root n : text) (sub before after : listing),
         exists mid tail,
           postorder root (Dir (before ++ (n, Dir sub) :: after))
           = flat_map (fun e => postorder (Py.join root (fst e)) (snd e))
               before
             ++ postorder (Py.join root n) (Dir sub)
             ++ mid ++ (root, n) :: tail)
  /\ sanitize_ntfs_names the_script allow_all false 255 (str "r") tree_nested
     = Some (Dir [ (str "d_x", Dir [ (str "f_y", File []) ]) ],
             RunState (Counters 2 0 0)
               [ ChangeReport true (str "r/d:x") (str "f?y") (str "f_y")
                   true false false;
                 ChangeReport true (str "r") (str "d:x") (str "d_x")
                   true false false ]
               [ (str "r/d:x", str "f?y"); (str "r", str "d:x") ]).
Proof.
  split; [|split].
  - intros. apply walk_trace.
  - intros. apply postorder_subtree_first.
  - vm_compute. reflexivity.
Qed.

(** * More about the name correction *)

Lemma clean_edges_no_trailing (s : text) :
  clean_edges s -> has_trailing s = false.
Proof. intros H. now apply has_trailing_false, strip_fixed_clean. Qed.

Lemma sanitized_empty (max_length : Z) : sanitized max_length [] = [].
Proof. reflexivity. Qed.

(** X1.  No forbidden character survives the correction, whatever the name
    and the limit. *)
Theorem no_forbidden_character_survives (max_length : Z) (name : text) :
  has_invalid (sanitized max_length name) = false.
Proof.
  apply has_invalid_false. unfold sanitized.
  destruct (needs_fix name) eqn:Hfix; [apply new_name_safe|].
  unfold needs_fix in Hfix.
  apply orb_false_iff in Hfix as [Hfix _].
  apply orb_false_iff in Hfix as [Hinv _].
  now apply has_invalid_false.
Qed.

(** X2.  The corrected name of a name within the limit is within the
    limit. *)
Theorem corrected_name_within_limit (max_length : Z) (name : text) :
  (Py.len name <= max_length)%Z ->
  (Py.len (sanitized max_length name) <= max_length)%Z.
Proof.
  intros Hfit. destruct name as [|c r]; [exact Hfit|].
  apply sanitized_sound; [discriminate | exact Hfit].
Qed.

Lemma corrected_name_within_limit_witness :
  (Py.len (sanitized 7 (str "con.txt")) <= 7)%Z.
Proof.
  apply corrected_name_within_limit. vm_compute. discriminate.
Defined.

(** X3.  The corrected name of a non-empty name within the limit is not
    empty and neither starts nor ends with a space or a dot: the trailing
    detection does not fire on it. *)
Theorem corrected_name_has_clean_edges (max_length : Z) (name : text) :
  name <> [] -> (Py.len name <= max_length)%Z ->
  sanitized max_length name <> []
  /\ Py.strip_char (hd dot (sanitized max_length name)) = false
  /\ Py.strip_char (last (sanitized max_length name) dot) = false
  /\ has_trailing (sanitized max_length name) = false.
Proof.
  intros Hne Hfit.
  destruct (sanitized_sound max_length name Hne Hfit) as (_ & Hc & _).
  pose proof (clean_edges_no_trailing _ Hc).
  destruct Hc as (H1 & H2 & H3). auto.
Qed.

Lemma corrected_name_has_clean_edges_witness :
  has_trailing (sanitized 255 (str " . a:b . ")) = false.
Proof.
  apply (corrected_name_has_clean_edges 255 (str " . a:b . ")).
  - discriminate.
  - vm_compute. discriminate.
Defined.

(** X4.  A name that matches the reserved pattern is corrected to a name
    that starts with an underscore and matches the pattern no more, also
    when the escaped name had to be cut to the limit. *)
Theorem reserved_name_is_escaped (max_length : Z) (name : text) :
  is_reserved name = true -> (Py.len name <= max_length)%Z ->
  hd dot (sanitized max_length name) = underscore
  /\ is_reserved (sanitized max_length name) = false.
Proof.
  intros Hres Hfit.
  assert (needs_fix name = true) as Hfix
    by (unfold needs_fix; rewrite Hres; apply orb_true_r).
  split.
  - unfold sanitized. rewrite Hfix.
    now apply (new_name_facts max_length name Hfix Hfit).
  - apply sanitized_sound; try assumption.
    now apply needs_fix_nonempty.
Qed.

Lemma reserved_name_is_escaped_witness :
  is_reserved (sanitized 8 (str "LPT1.txt")) = false.
Proof.
  apply (reserved_name_is_escaped 8 (str "LPT1.txt")).
  - reflexivity.
  - vm_compute. discriminate.
Defined.

(** X5.  Correcting twice is correcting once, as long as the corrected
    name does not match the reserved pattern: then none of the three
    detections fires on it. *)
Theorem sanitize_idempotent_unless_reserved (max_length : Z) (name : text) :
  (Py.len name <= max_length)%Z ->
  is_reserved (sanitized max_length name) = false ->
  needs_fix (sanitized max_length name) = false
  /\ sanitized max_length (sanitized max_length name)
     = sanitized max_length name.
Proof.
  intros Hfit Hres.
  assert (needs_fix (sanitized max_length name) = false) as Hfix.
  { destruct name as [|c r]; [reflexivity|].
    destruct (sanitized_sound max_length (c :: r)) as (Hs & Hc & _);
      [discriminate | exact Hfit|].
    unfold needs_fix. rewrite Hres.
    apply has_invalid_false in Hs. rewrite Hs.
    now rewrite (clean_edges_no_trailing _ Hc). }
  split; [exact Hfix|].
  unfold sanitized at 1. now rewrite Hfix.
Qed.

Lemma sanitize_idempotent_unless_reserved_witness :
  sanitized 255 (sanitized 255 (str "aux.c?"))
  = sanitized 255 (str "aux.c?").
Proof.
  apply (sanitize_idempotent_unless_reserved 255 (str "aux.c?")).
  - vm_compute. discriminate.
  - reflexivity.
Defined.

(** X6.  The detection called trailing fires exactly on the non-empty names
    that start or end with a space or a dot: leading ones count too. *)
Theorem has_trailing_iff_edge (name : text) :
  has_trailing name = true <->
  name <> []
  /\ (Py.strip_char (hd dot name) = true
      \/ Py.strip_char (last name dot) = true).
Proof.
  rewrite has_trailing_true, strip_fixed. unfold clean_edges. split.
  - intros H. split; [intros ->; apply H; now left|].
    destruct (Py.strip_char (hd dot name)) eqn:E1; [now left|].
    destruct (Py.strip_char (last name dot)) eqn:E2; [now right|].
    exfalso. apply H. right. repeat split; try assumption.
    intros ->. apply H. now left.
  - intros [Hne Hedge] [->|(_ & H1 & H2)]; [congruence|].
    destruct Hedge; congruence.
Qed.

(** A name made of spaces and dots only. *)
Lemma lstrip_blank (s : text) :
  Forall (fun c => Py.strip_char c = true) s -> Py.lstrip s = [].
Proof.
  induction 1 as [|c r Hc _ IH]; [reflexivity|]. simpl. now rewrite Hc.
Qed.

Lemma limit_length_unnamed_value (max_length : Z) :
  (1 <= max_length)%Z ->
  limit_length max_length unnamed = firstn (Z.to_nat max_length) unnamed.
Proof.
  intros H. destruct (Z_lt_le_dec max_length 7) as [Hlt|Hge].
  - assert (max_length = 1 \/ max_length = 2 \/ max_length = 3
            \/ max_length = 4 \/ max_length = 5 \/ max_length = 6)%Z
      as Hcases by lia.
    destruct Hcases as [->|[->|[->|[->|[->| ->]]]]]; reflexivity.
  - rewrite limit_length_short by (vm_compute Py.len; lia).
    symmetry. apply firstn_all2.
    change (length unnamed) with 7. lia.
Qed.

(** X7.  A non-empty name of spaces and dots only, within the limit, is
    corrected to the placeholder, cut to the limit when the limit is under
    seven characters. *)
Theorem blank_name_gets_placeholder (max_length : Z) (name : text) :
  name <> [] -> Forall (fun c => Py.strip_char c = true) name ->
  (Py.len name <= max_length)%Z ->
  sanitized max_length name = firstn (Z.to_nat max_length) unnamed.
Proof.
  intros Hne Hblank Hfit.
  assert (Py.strip name = []) as Hstrip
    by (unfold Py.strip; now rewrite lstrip_blank).
  assert (has_invalid name = false) as Hinv.
  { apply has_invalid_false. eapply Forall_impl; [|exact Hblank].
    exact strip_char_safe. }
  assert (has_trailing name = true) as Htr
    by (apply has_trailing_true; congruence).
  assert (is_reserved name = false) as Hres.
  { destruct (is_reserved name) eqn:E; [|reflexivity].
    destruct (is_reserved_head name E) as [_ Hal].
    apply alnum_plain in Hal.
    pose proof (hd_in name dot Hne) as Hin.
    rewrite Forall_forall in Hblank. apply Hblank in Hin. congruence. }
  unfold sanitized, needs_fix, new_name_of, fixed_name, handle_reserved,
    remove_trailing, replace_invalid.
  rewrite Hinv, Htr, Hres, Hstrip. simpl.
  apply limit_length_unnamed_value.
  destruct name; [congruence|]. unfold Py.len in Hfit. simpl in Hfit. lia.
Qed.

Lemma blank_name_gets_placeholder_witness :
  sanitized 3 (str ". .") = str "unn".
Proof.
  apply (blank_name_gets_placeholder 3 (str ". .")).
  - discriminate.
  - repeat constructor.
  - vm_compute. discriminate.
Defined.

(** ** The reserved pattern *)

Lemma at_end_spec (s : text) :
  at_end s = true <-> s = [] \/ s = [newline].
Proof.
  destruct s as [|c [|y r]]; simpl.
  - split; auto.
  - rewrite N.eqb_eq. split.
    + intros ->. now right.
    + intros [H|H]; [discriminate | now injection H].
  - split; [discriminate | intros [H|H]; discriminate].
Qed.

Lemma dot_star_end_spec (s : text) : dot_star_end s = true <-> one_line s.
Proof.
  split.
  - induction s as [|c r IH]; intros H.
    + exists [], []. repeat split; auto.
    + change (dot_star_end (c :: r))
        with (at_end (c :: r)
              || (negb (N.eqb c newline) && dot_star_end r)) in H.
      apply orb_true_iff in H as [H|H].
      * apply at_end_spec in H as [H|H]; [discriminate|].
        exists [], (c :: r). repeat split; auto.
      * apply andb_true_iff in H as [Hc Hr].
        apply negb_true_iff, N.eqb_neq in Hc.
        destruct (IH Hr) as (e & t & -> & He & Ht).
        exists (c :: e), t. repeat split; [|exact Ht].
        intros [Hin|Hin]; [congruence | tauto].
  - intros (e & t & -> & He & Ht). induction e as [|c e IH].
    + simpl app. destruct Ht as [->| ->]; reflexivity.
    + simpl app.
      change (dot_star_end (c :: e ++ t))
        with (at_end (c :: e ++ t)
              || (negb (N.eqb c newline) && dot_star_end (e ++ t))).
      replace (negb (N.eqb c newline)) with true.
      * rewrite IH by (simpl in He; tauto). apply orb_true_r.
      * symmetry. apply negb_true_iff, N.eqb_neq. simpl in He. tauto.
Qed.

Lemma opt_ext_end_spec (rest : text) :
  opt_ext_end rest = true <-> device_tail rest.
Proof.
  unfold opt_ext_end, device_tail. rewrite orb_true_iff, at_end_spec. split.
  - intros [[H|H]|H]; auto.
    destruct rest as [|c r]; [discriminate|].
    apply andb_true_iff in H as [Hc Hr]. apply N.eqb_eq in Hc. subst c.
    right. right. exists r. split; [reflexivity | now apply dot_star_end_spec].
  - intros [H|[H|(r & -> & Hr)]]; auto.
    right. rewrite N.eqb_refl. now apply dot_star_end_spec.
Qed.

Lemma literal_ci_complete (w : text) :
  forall p rest, map lower p = map lower w ->
                 literal_ci w (p ++ rest) = Some rest.
Proof.
  induction w as [|x w IH]; intros p rest H.
  - destruct p; [reflexivity | discriminate].
  - destruct p as [|c p]; [discriminate|]. simpl in H.
    injection H as Hc Hp. simpl. rewrite Hc, N.eqb_refl. now apply IH.
Qed.

Lemma literal_ci_sound (w : text) :
  forall s r, literal_ci w s = Some r ->
              exists p, s = p ++ r /\ map lower p = map lower w.
Proof.
  induction w as [|x w IH]; intros s r H.
  - simpl in H. injection H as ->. now exists [].
  - destruct s as [|c s]; [discriminate|]. simpl in H.
    destruct (N.eqb_spec (lower c) (lower x)) as [E|E]; [|discriminate].
    apply IH in H as (p & -> & Hp).
    exists (c :: p). split; [reflexivity|]. simpl. now rewrite E, Hp.
Qed.

Lemma lower_digit (c k : char) :
  (49 <= k <= 57)%N -> lower c = k -> c = k.
Proof.
  unfold lower. intros Hk.
  destruct (N.leb_spec 65 c); destruct (N.leb_spec c 90); simpl; lia.
Qed.

Lemma device_word_complete (w : string) (p rest : text) :
  map lower p = map lower (str w) -> device_word w (p ++ rest) = Some rest.
Proof. apply literal_ci_complete. Qed.

Lemma device_port_complete (w : string) (p rest : text) (k : char) :
  map lower p = map lower (str w) ++ [k] -> (49 <= k <= 57)%N ->
  device_port w (p ++ rest) = Some rest.
Proof.
  intros H Hk. apply map_eq_app in H as (p1 & p2 & -> & H1 & H2).
  destruct p2 as [|c [|y p2]]; try discriminate.
  simpl in H2. injection H2 as Hc.
  apply (lower_digit c k Hk) in Hc. subst c.
  unfold device_port. rewrite <- app_assoc.
  rewrite (literal_ci_complete (str w) p1 _ H1). simpl.
  replace (N.leb 49 k && N.leb k 57) with true; [reflexivity|].
  symmetry. apply andb_true_iff. split; apply N.leb_le; lia.
Qed.

Lemma is_reserved_intro (head : text -> option text) (name r : text) :
  In head reserved_heads -> head name = Some r -> opt_ext_end r = true ->
  is_reserved name = true.
Proof.
  intros Hin Hh Hr. unfold is_reserved. apply existsb_exists.
  exists head. split; [exact Hin|]. now rewrite Hh.
Qed.

Lemma device_word_names (w : string) (name r : text) :
  In (map lower (str w)) device_names ->
  device_word w name = Some r ->
  exists p, name = p ++ r /\ In (map lower p) device_names.
Proof.
  intros Hin H. apply literal_ci_sound in H as (p & -> & Hp).
  exists p. split; [reflexivity|]. now rewrite Hp.
Qed.

Lemma device_port_names (w : string) (name r : text) :
  (forall k, (49 <= k <= 57)%N ->
             In (map lower (str w) ++ [k]) device_names) ->
  device_port w name = Some r ->
  exists p, name = p ++ r /\ In (map lower p) device_names.
Proof.
  intros Hin H. unfold device_port in H.
  destruct (literal_ci (str w) name) as [r'|] eqn:E; [|discriminate].
  apply literal_ci_sound in E as (p & -> & Hp).
  destruct r' as [|c r']; [discriminate|]. simpl in H.
  destruct (N.leb 49 c && N.leb c 57) eqn:Ec; [|discriminate].
  injection H as ->.
  apply andb_true_iff in Ec as [E1 E2]. apply N.leb_le in E1, E2.
  exists (p ++ [c]). rewrite <- app_assoc. split; [reflexivity|].
  rewrite map_app, Hp. simpl.
  replace (lower c) with c
    by (unfold lower; destruct (N.leb_spec 65 c); simpl; [lia | reflexivity]).
  apply Hin. lia.
Qed.

Lemma port_digits (k : char) :
  (49 <= k <= 57)%N ->
  (k = 49 \/ k = 50 \/ k = 51 \/ k = 52 \/ k = 53 \/ k = 54 \/ k = 55
   \/ k = 56 \/ k = 57)%N.
Proof. lia. Qed.

Ltac in_heads :=
  unfold reserved_heads; simpl;
  repeat (first [left; reflexivity | right]).

Ltac by_word w :=
  match goal with
  | Hp : _ = map lower ?p, Ht : opt_ext_end ?rest = true |- _ =>
      apply (is_reserved_intro (device_word w) _ rest);
      [ in_heads
      | apply device_word_complete; symmetry; exact Hp
      | exact Ht ]
  end.

Ltac by_digit w k :=
  match goal with
  | Hp : _ = map lower ?p |- device_port _ (?p ++ ?rest) = _ =>
      apply (device_port_complete w p rest k); [symmetry; exact Hp | lia]
  end.

Ltac by_port w :=
  match goal with
  | Ht : opt_ext_end ?rest = true |- _ =>
      apply (is_reserved_intro (device_port w) _ rest);
      [ in_heads
      | first [ by_digit w 49%N | by_digit w 50%N | by_digit w 51%N
              | by_digit w 52%N | by_digit w 53%N | by_digit w 54%N
              | by_digit w 55%N | by_digit w 56%N | by_digit w 57%N ]
      | exact Ht ]
  end.

(** X8.  The reserved detection fires exactly on the names that begin with
    one of the twenty-two device names, in any mix of upper and lower case,
    and go on with nothing, with a final newline, or with a dot and any
    characters on one line. *)
Theorem is_reserved_iff_device_name (name : text) :
  is_reserved name = true <->
  exists p rest,
    name = p ++ rest /\ In (map lower p) device_names /\ device_tail rest.
Proof.
  split.
  - unfold is_reserved, reserved_heads. simpl existsb.
    rewrite !orb_true_iff.
    assert (forall w, In (map lower (str w)) device_names ->
              match device_word w name with
              | Some r => opt_ext_end r
              | None => false
              end = true ->
              exists p rest, name = p ++ rest
                /\ In (map lower p) device_names /\ device_tail rest)
      as Hword.
    { intros w Hw H. destruct (device_word w name) as [r|] eqn:E;
        [|discriminate].
      destruct (device_word_names w name r Hw E) as (p & -> & Hp).
      exists p, r. repeat split; [exact Hp | now apply opt_ext_end_spec]. }
    assert (forall w, (forall k, (49 <= k <= 57)%N ->
                                 In (map lower (str w) ++ [k]) device_names) ->
              match device_port w name with
              | Some r => opt_ext_end r
              | None => false
              end = true ->
              exists p rest, name = p ++ rest
                /\ In (map lower p) device_names /\ device_tail rest)
      as Hport.
    { intros w Hw H. destruct (device_port w name) as [r|] eqn:E;
        [|discriminate].
      destruct (device_port_names w name r Hw E) as (p & -> & Hp).
      exists p, r. repeat split; [exact Hp | now apply opt_ext_end_spec]. }
    intros [H|[H|[H|[H|[H|[H|H]]]]]]; try discriminate.
    + apply (Hword "CON"%string); [cbv; tauto | exact H].
    + apply (Hword "PRN"%string); [cbv; tauto | exact H].
    + apply (Hword "AUX"%string); [cbv; tauto | exact H].
    + apply (Hword "NUL"%string); [cbv; tauto | exact H].
    + apply (Hport "COM"%string); [|exact H].
      intros k Hk. apply port_digits in Hk.
      repeat (destruct Hk as [->|Hk]); try subst k; cbv; tauto.
    + apply (Hport "LPT"%string); [|exact H].
      intros k Hk. apply port_digits in Hk.
      repeat (destruct Hk as [->|Hk]); try subst k; cbv; tauto.
  - intros (p & rest & -> & Hp & Ht). apply opt_ext_end_spec in Ht.
    unfold device_names in Hp. simpl In in Hp.
    repeat (destruct Hp as [Hp|Hp]); try contradiction;
      first [ by_word "CON"%string | by_word "PRN"%string
            | by_word "AUX"%string | by_word "NUL"%string
            | by_port "COM"%string | by_port "LPT"%string ].
Qed.

(** ** What the cut of lines 81-85 keeps *)

Lemma firstn_not_in (c : char) (k : nat) (s : text) :
  ~ In c s -> ~ In c (firstn k s).
Proof.
  intros H Hin. apply H. rewrite <- (firstn_skipn k s).
  apply in_or_app. now left.
Qed.

Lemma limit_length_whole (max_length : Z) (s : text) :
  (Py.len s <= max_length)%Z ->
  exists k,
    limit_length max_length s
    = firstn k (fst (Py.splitext s)) ++ snd (Py.splitext s)
    /\ Py.splitext (limit_length max_length s)
       = (firstn k (fst (Py.splitext s)), snd (Py.splitext s)).
Proof.
  intros H. exists (length (fst (Py.splitext s))).
  rewrite limit_length_short by exact H.
  rewrite firstn_all, splitext_app. split; [reflexivity|].
  apply surjective_pairing.
Qed.

Lemma limit_length_unnamed_cut (max_length : Z) :
  (1 <= max_length)%Z ->
  exists k,
    limit_length max_length unnamed
    = firstn k (fst (Py.splitext unnamed)) ++ snd (Py.splitext unnamed)
    /\ Py.splitext (limit_length max_length unnamed)
       = (firstn k (fst (Py.splitext unnamed)), snd (Py.splitext unnamed)).
Proof.
  intros H. destruct (Z_lt_le_dec max_length 7) as [Hlt|Hge].
  - exists (Z.to_nat max_length).
    assert (max_length = 1 \/ max_length = 2 \/ max_length = 3
            \/ max_length = 4 \/ max_length = 5 \/ max_length = 6)%Z
      as Hcases by lia.
    destruct Hcases as [->|[->|[->|[->|[->| ->]]]]]; split; reflexivity.
  - apply limit_length_whole. vm_compute Py.len. lia.
Qed.

(** An escaped name one character over the limit loses the last character
    of its base. *)
Lemma limit_length_escaped_cut (max_length : Z) (x : text) :
  clean_edges x -> all_safe x -> Py.len x = max_length ->
  exists k,
    limit_length max_length (underscore :: x)
    = firstn k (fst (Py.splitext (underscore :: x)))
      ++ snd (Py.splitext (underscore :: x))
    /\ Py.splitext (limit_length max_length (underscore :: x))
       = (firstn k (fst (Py.splitext (underscore :: x))),
          snd (Py.splitext (underscore :: x))).
Proof.
  intros (Hne & Hhd & _) Hsafe Hlen.
  set (s := underscore :: x).
  assert (~ In slash s) as Hns.
  { unfold s. intros [H|H]; [discriminate|].
    now apply (all_safe_no_slash x Hsafe). }
  assert (Py.len s = max_length + 1)%Z as Hs
    by (unfold s, Py.len in *; simpl length; lia).
  assert (1 <= max_length)%Z as H1.
  { destruct x; [congruence|]. unfold Py.len in Hlen. simpl in Hlen. lia. }
  unfold limit_length.
  replace (max_length <? Py.len s)%Z with true
    by (symmetry; apply Z.ltb_lt; lia).
  destruct (in_dec N.eq_dec dot s) as [Hdot|Hnd].
  - destruct (splitext_must_split underscore x) as (a & e & E & Es & Ha);
      [discriminate | exact Hns | exact Hdot|].
    fold s in E, Es.
    pose proof (splitext_shape s) as Hshape. rewrite E in Hshape.
    inversion Hshape as [|a0 e0 _ Hde Hse _]; subst a0 e0.
    rewrite E. simpl fst. simpl snd.
    assert (Py.len s = Py.len a + Py.len (dot :: e))%Z as Hsum
      by (rewrite Es; apply len_app).
    assert (1 <= length a) as Hla
      by (destruct a; [congruence | simpl; lia]).
    rewrite slice_to_nonneg by (unfold Py.len in *; lia).
    replace (Z.to_nat (max_length - Py.len (dot :: e))) with (length a - 1)
      by (unfold Py.len in *; lia).
    exists (length a - 1). split; [reflexivity|].
    rewrite splitext_sep_before by assumption.
    assert (~ In slash a) as Hsa
      by (rewrite Es in Hns; rewrite in_app_iff in Hns; tauto).
    rewrite basename_plain by (now apply firstn_not_in).
    destruct a as [|c0 [|c1 a']]; [congruence| |].
    + exfalso. unfold s in Es. simpl in Es. injection Es as _ Ex.
      rewrite Ex in Hhd. discriminate.
    + assert (c0 = underscore) as -> by (unfold s in Es; now injection Es).
      simpl length. replace (S (S (length a')) - 1) with (S (length a'))
        by lia.
      rewrite firstn_cons. reflexivity.
  - rewrite (splitext_no_dot s Hnd). simpl fst. simpl snd.
    change (Py.len []) with 0%Z. rewrite Z.sub_0_r, !app_nil_r.
    rewrite slice_to_nonneg by lia.
    exists (Z.to_nat max_length). rewrite app_nil_r.
    split; [reflexivity|].
    apply splitext_no_dot. now apply firstn_not_in.
Qed.

(** X9.  Enforcing the length only cuts the end of the base: the corrected
    name is a prefix of the base of the name as fixed, followed by its whole
    extension, and it splits again into that prefix and that extension. *)
Theorem truncation_keeps_extension (max_length : Z) (name : text) :
  needs_fix name = true -> (Py.len name <= max_length)%Z ->
  exists k,
    new_name_of max_length name
    = firstn k (fst (Py.splitext (fixed_name name)))
      ++ snd (Py.splitext (fixed_name name))
    /\ Py.splitext (new_name_of max_length name)
       = (firstn k (fst (Py.splitext (fixed_name name))),
          snd (Py.splitext (fixed_name name))).
Proof.
  intros Hfix Hfit. pose proof (needs_fix_nonempty name Hfix) as Hne.
  unfold new_name_of.
  destruct (Z_le_gt_dec (Py.len (fixed_name name)) max_length) as [Hle|Hgt];
    [now apply limit_length_whole|].
  rewrite fixed_name_trimmed in *. unfold handle_reserved in *.
  destruct (is_reserved name) eqn:Hres.
  - destruct (reserved_trimmed name Hres) as (p & t & E & _ & _ & _ & Hl).
    apply limit_length_escaped_cut.
    + now apply trimmed_clean.
    + apply trimmed_safe.
    + rewrite E in *. unfold Py.len in *. simpl length in Hgt. lia.
  - destruct (trimmed_length name) as [(_ & _ & E)|Hl].
    + rewrite E. apply limit_length_unnamed_cut.
      destruct name; [congruence|]. unfold Py.len in Hfit.
      simpl length in Hfit. lia.
    + unfold Py.len in *. lia.
Qed.

Lemma truncation_keeps_extension_witness :
  exists k,
    new_name_of 11 (str "com1.tar.gz")
    = firstn k (str "_com1.tar") ++ str ".gz".
Proof.
  destruct (truncation_keeps_extension 11 (str "com1.tar.gz"))
    as (k & E & _).
  - reflexivity.
  - vm_compute. discriminate.
  - exists k. exact E.
Defined.

(** * More about the walk *)

(** ** Renaming an entry of a directory *)

Lemma rename_entry_split (old new : text) (es es' : listing) :
  rename_entry old new es = Some es' ->
  exists l1 t l2,
    es = l1 ++ (old, t) :: l2 /\ ~ In old (map fst l1)
    /\ es' = l1 ++ (new, t) :: l2.
Proof.
  revert es'. induction es as [|[n t] r IH]; intros es' H; [discriminate|].
  simpl in H. destruct (Py.eqb n old) eqn:E.
  - apply eqb_eq in E. subst n. injection H as <-.
    exists [], t, r. repeat split. simpl. tauto.
  - apply eqb_neq in E.
    destruct (rename_entry old new r) as [r'|]; [|discriminate].
    injection H as <-.
    destruct (IH r' eq_refl) as (l1 & t' & l2 & -> & Hl1 & ->).
    exists ((n, t) :: l1), t', l2. repeat split.
    simpl. intros [H|H]; [congruence | tauto].
Qed.

Lemma rename_entry_present (old new : text) (es : listing) :
  In old (map fst es) -> exists es', rename_entry old new es = Some es'.
Proof.
  induction es as [|[n t] r IH]; intros H; [destruct H|].
  simpl. destruct (Py.eqb n old) eqn:E; [eauto|].
  apply eqb_neq in E. destruct H as [H|H]; [simpl in H; congruence|].
  destruct (IH H) as [r' ->]. eauto.
Qed.

Lemma rename_entry_snd (old new : text) (es es' : listing) :
  rename_entry old new es = Some es' -> map snd es' = map snd es.
Proof.
  intros H. apply rename_entry_split in H as (l1 & t & l2 & -> & _ & ->).
  now rewrite !map_app.
Qed.

Lemma rename_entry_kinds (old new : text) (es es' : listing) :
  rename_entry old new es = Some es' ->
  map (fun e => is_dir (snd e)) es' = map (fun e => is_dir (snd e)) es.
Proof.
  intros H. apply rename_entry_snd in H.
  rewrite <- !(map_map snd is_dir). now rewrite H.
Qed.

(** The names after a renaming to a name that was free. *)
Lemma rename_entry_names (old new : text) (es es' : listing) :
  rename_entry old new es = Some es' ->
  NoDup (map fst es) -> ~ In new (map fst es) ->
  NoDup (map fst es')
  /\ forall m, In m (map fst es')
               <-> m = new \/ (In m (map fst es) /\ m <> old).
Proof.
  intros H Hnd Hnew.
  apply rename_entry_split in H as (l1 & t & l2 & -> & _ & ->).
  rewrite map_app in *. simpl in *.
  pose proof (NoDup_remove_1 _ _ _ Hnd) as Hnd'.
  pose proof (NoDup_remove_2 _ _ _ Hnd) as Hold.
  split.
  - eapply Permutation_NoDup; [apply Permutation_middle|].
    constructor; [|exact Hnd'].
    intros Hin. apply Hnew. apply in_app_iff in Hin.
    apply in_app_iff. simpl. tauto.
  - intros m. rewrite !map_app, !in_app_iff. simpl.
    rewrite in_app_iff in Hold.
    split.
    + intros [H|[H|H]]; [right | left; congruence | right];
        (split; [tauto|]); intros ->; tauto.
    + intros [->|[[H|[H|H]] Hm]]; auto; congruence.
Qed.

(** ** What the loop body does to the directory *)

Section Listing.

Variable script_name : text.
Variable denied : text -> text -> bool.
Variable dry_run : bool.
Variable max_length : Z.

#[local] Abbreviation body :=
  (process_entry script_name denied dry_run max_length).
#[local] Abbreviation entries :=
  (process_entries script_name denied dry_run max_length).
#[local] Abbreviation walk_in :=
  (walk script_name denied dry_run max_length).

(** The body leaves the directory as it is or renames the entry, in a
    live run, to the name the collision loop ended with. *)
Lemma process_entry_listing (root name : text) (es es' : listing)
      (s s' : run_state) :
  body root name (es, s) = Some (es', s') ->
  es' = es
  \/ exists new_name,
       dry_run = false
       /\ name <> script_name
       /\ too_long max_length root name = false
       /\ needs_fix name = true
       /\ resolve_collision root (new_name_of max_length name) es
          = Some new_name
       /\ rename_entry name new_name es = Some es'.
Proof.
  intros H.
  destruct (list_eq_dec N.eq_dec name script_name) as [He|Hn].
  { rewrite process_entry_script in H by exact He.
    injection H as <- _. now left. }
  destruct (Z_lt_le_dec max_length
              (Py.len (Py.basename (Py.join root name)))) as [Hl|Hfit].
  { rewrite process_entry_too_long in H by assumption.
    injection H as <- _. now left. }
  destruct (needs_fix name) eqn:Hfix.
  2:{ rewrite process_entry_fine in H by assumption.
      injection H as <- _. now left. }
  destruct (process_entry_fix script_name denied dry_run max_length
              root name es s Hn Hfit Hfix) as (r & Hr & _ & _ & E).
  rewrite E in H.
  destruct (report_and_rename_cases denied dry_run root name r es
              (note_visit root name s))
    as [[_ E']|[(Hd & es1 & Hren & E')|(_ & _ & E')]];
    rewrite E' in H; injection H as <- _; try (now left).
  right. exists r. unfold os_rename in Hren.
  destruct (denied _ _); [discriminate|].
  repeat split; try assumption.
  unfold too_long. now apply Z.ltb_ge.
Qed.

Lemma process_entry_snd (root name : text) (es es' : listing)
      (s s' : run_state) :
  body root name (es, s) = Some (es', s') -> map snd es' = map snd es.
Proof.
  intros H. apply process_entry_listing in H as [->|(r & H)];
    [reflexivity|].
  eapply rename_entry_snd. apply H.
Qed.

Lemma process_entries_snd (root : text) (names : list text) :
  forall (es es' : listing) (s s' : run_state),
    entries root names (es, s) = Some (es', s') ->
    map snd es' = map snd es.
Proof.
  induction names as [|name rest IH]; intros es es' s s' H.
  - simpl in H. now injection H as <- _.
  - rewrite process_entries_cons in H.
    destruct (body root name (es, s)) as [[es1 s1]|] eqn:E; [|discriminate].
    apply IH in H. apply process_entry_snd in E. congruence.
Qed.

(** ** Taking a walk apart *)

Lemma walk_dir_inv (root : text) (es : listing) (s : run_state)
      (t' : node) (s' : run_state) :
  walk_in root (Dir es) s = Some (t', s') ->
  exists es1 s1 es2,
    descend (fun n c => walk_in (Py.join root n) c) es s = Some (es1, s1)
    /\ entries root (dirs_of es ++ files_of es) (es1, s1) = Some (es2, s')
    /\ t' = Dir es2.
Proof.
  rewrite walk_dir. intros H.
  destruct (descend _ es s) as [[es1 s1]|]; [|discriminate].
  destruct (entries root _ (es1, s1)) as [[es2 s2]|] eqn:E;
    [|discriminate].
  injection H as <- <-. exists es1, s1, es2. auto.
Qed.

Lemma descend_inv (visit : text -> node -> run_state ->
                           option (node * run_state)) (es : listing) :
  forall (s : run_state) (es1 : listing) (s1 : run_state),
    descend visit es s = Some (es1, s1) ->
    map fst es1 = map fst es
    /\ Forall2 (fun e e1 => exists sa sb,
                    visit (fst e) (snd e) sa = Some (snd e1, sb)) es es1.
Proof.
  induction es as [|[n c] l IH]; intros s es1 s1 H.
  - simpl in H. injection H as <- _. split; [reflexivity | constructor].
  - rewrite descend_cons in H.
    destruct (visit n c s) as [[c' sa]|] eqn:E; [|discriminate].
    destruct (descend visit l sa) as [[l' sb]|] eqn:El; [|discriminate].
    injection H as <- _. destruct (IH _ _ _ El) as [Hn Hf].
    split; [simpl; now rewrite Hn|].
    constructor; [simpl; eauto | exact Hf].
Qed.

(** What the body keeps of the state, the whole walk keeps. *)
Lemma walk_state_invariant (I : run_state -> Prop) :
  (forall root name es s es' s',
      body root name (es, s) = Some (es', s') -> I s -> I s') ->
  forall t root s t' s',
    walk_in root t s = Some (t', s') -> I s -> I s'.
Proof.
  intros Hbody.
  assert (forall root names es s es' s',
             entries root names (es, s) = Some (es', s') -> I s -> I s')
    as Hentries.
  { intros root names. induction names as [|name rest IH];
      intros es s es' s' H Hs.
    - simpl in H. now injection H as _ <-.
    - rewrite process_entries_cons in H.
      destruct (body root name (es, s)) as [[es1 s1]|] eqn:E;
        [|discriminate].
      eapply IH; [exact H|]. eapply Hbody; eauto. }
  induction t as [content|es IH] using node_induction;
    intros root s t' s' H Hs.
  - simpl in H. now injection H as _ <-.
  - apply walk_dir_inv in H as (es1 & s1 & es2 & Hd & He & _).
    eapply Hentries; [exact He|].
    clear He. revert s es1 s1 Hd Hs.
    induction IH as [|[n c] l Hc _ IHl]; intros s es1 s1 Hd Hs.
    + simpl in Hd. now injection Hd as _ <-.
    + rewrite descend_cons in Hd. simpl in Hc.
      destruct (walk_in (Py.join root n) c s) as [[c' sa]|] eqn:E;
        [|discriminate].
      destruct (descend _ l sa) as [[l' sb]|] eqn:El; [|discriminate].
      injection Hd as _ <-.
      eapply IHl; [exact El|]. eapply Hc; eauto.
Qed.

End Listing.

(** ** The collision loop, once more *)

(** The loop keeps the base of the candidate in front and its extension
    behind. *)
Lemma collision_loop_frame (taken : text -> bool) (c : text) :
  forall (fuel : nat) (k : nat) (r : text),
    collision_loop fuel taken (snd (Py.splitext c)) c k = Some r ->
    exists sfx,
      r = fst (Py.splitext c) ++ sfx ++ snd (Py.splitext c)
      /\ Py.splitext r = (fst (Py.splitext c) ++ sfx, snd (Py.splitext c)).
Proof.
  intros fuel k r Hr.
  set (base := fst (Py.splitext c)) in *.
  set (ext := snd (Py.splitext c)) in *.
  destruct (fun Hstep H0 =>
              collision_loop_invariant
                (fun n => exists sfx, n = base ++ sfx ++ ext
                                      /\ Py.splitext n = (base ++ sfx, ext))
                taken ext Hstep _ _ _ _ H0 Hr) as [H _]; [| |exact H].
  - intros n j (sfx & -> & E).
    exists (sfx ++ underscore :: Py.format j).
    assert (next_name ext (base ++ sfx ++ ext) j
            = base ++ (sfx ++ underscore :: Py.format j) ++ ext) as En.
    { unfold next_name. rewrite E. simpl fst.
      rewrite <- !app_assoc. reflexivity. }
    split; [exact En|].
    rewrite next_name_splitext; [| apply splitext_ext_shape | now rewrite E].
    rewrite E. simpl fst. now rewrite <- app_assoc.
  - exists []. unfold base, ext. simpl. rewrite app_nil_r.
    split; [symmetry; apply splitext_app | apply surjective_pairing].
Qed.

Lemma free_candidate_is_kept (root c : text) (es : listing) :
  path_exists es c = false -> resolve_collision root c es = Some c.
Proof. intros H. unfold resolve_collision. simpl. now rewrite H. Qed.

Lemma collision_loop_round (taken : text -> bool) (ext n : text)
      (fuel k : nat) :
  collision_loop (S fuel) taken ext n k
  = if taken n then collision_loop fuel taken ext (next_name ext n k) (S k)
    else Some n.
Proof. reflexivity. Qed.

(** More rounds do not change the name the loop ends with. *)
Lemma collision_loop_more_fuel (taken : text -> bool) (ext : text) :
  forall (fuel fuel' : nat) (n : text) (k : nat) (r : text),
    collision_loop fuel taken ext n k = Some r -> fuel <= fuel' ->
    collision_loop fuel' taken ext n k = Some r.
Proof.
  induction fuel as [|fuel IH]; intros fuel' n k r Hr Hle; [discriminate|].
  destruct fuel' as [|fuel']; [lia|].
  simpl in *. destruct (taken n); [|exact Hr].
  apply (IH fuel'); [exact Hr | lia].
Qed.

(** The loop ends when [taken] holds of the names of a list only: every
    round tries a longer name, so no name is tried twice. *)
Lemma collision_loop_bounded (taken : text -> bool) (paths : list text)
      (ext : text) :
  ext_shape ext ->
  (forall n, taken n = true -> In n paths) ->
  forall (fuel : nat) (n : text) (k : nat),
    snd (Py.splitext n) = ext ->
    length (filter (at_least (length n)) paths) < fuel ->
    exists r, collision_loop fuel taken ext n k = Some r.
Proof.
  intros Hshape Hbound.
  induction fuel as [|fuel IH]; intros n k Hn Hfuel; [lia|].
  simpl. destruct (taken n) eqn:E; [|eauto].
  apply Hbound in E.
  apply IH.
  - fold (next_name ext n k). rewrite next_name_splitext by assumption.
    reflexivity.
  - fold (next_name ext n k).
    pose proof (next_name_longer ext n k Hn) as Hlonger.
    pose proof (filter_longer_lt paths _ _ _ Hlonger E eq_refl). lia.
Qed.

(** Lines 89-95 on any host: the name the loop ends with, whatever number
    of rounds above the number of names in use it is given. *)
Lemma collision_loop_total (taken : text -> bool) (paths : list text)
      (root c : text) :
  (forall n, taken n = true -> In n paths) ->
  exists r,
    forall fuel : nat,
      length paths < fuel ->
      collision_loop fuel taken (snd (Py.splitext (Py.join root c))) c 1
      = Some r.
Proof.
  intros Hbound. rewrite splitext_join.
  destruct (collision_loop_bounded taken paths (snd (Py.splitext c))
              (splitext_ext_shape c) Hbound (S (length paths)) c 1 eq_refl)
    as [r Hr].
  - pose proof (filter_length_le (at_least (length c)) paths). lia.
  - exists r. intros fuel Hfuel.
    apply (collision_loop_more_fuel _ _ _ _ _ _ _ Hr). lia.
Qed.

(** X10.  Lines 89-95 end on every host on which [os.path.exists] holds of
    finitely many paths, whatever the candidate: [taken] is
    [os.path.exists] on the paths of the directory [root], [paths] the
    names it holds of.  The loop ends within one round more than there are
    such names, on a name of which [os.path.exists] does not hold.  That
    name is the candidate itself when [os.path.exists] does not hold of it;
    in any case it starts with the base of the candidate and ends with its
    extension. *)
Theorem collision_loop_ends_on_free_name
        (taken : text -> bool) (paths : list text) (root c : text) :
  (forall n, taken n = true -> In n paths) ->
  exists r sfx,
    (forall fuel : nat,
        length paths < fuel ->
        collision_loop fuel taken (snd (Py.splitext (Py.join root c))) c 1
        = Some r)
    /\ taken r = false
    /\ r = fst (Py.splitext c) ++ sfx ++ snd (Py.splitext c)
    /\ snd (Py.splitext r) = snd (Py.splitext c)
    /\ (taken c = false -> r = c)
    /\ (taken c = true -> length c < length r).
Proof.
  intros Hbound.
  destruct (collision_loop_total taken paths root c Hbound) as [r Hall].
  pose proof (Hall (S (length paths)) (Nat.lt_succ_diag_r _)) as Hr.
  rewrite splitext_join in Hr.
  destruct (collision_loop_frame _ _ _ _ _ Hr) as (sfx & E & Es).
  destruct (collision_loop_invariant (fun _ => True) taken
              (snd (Py.splitext c)) (fun _ _ _ => I) _ _ _ _ I Hr)
    as [_ Hfree].
  exists r, sfx. repeat split; try assumption.
  - now rewrite Es.
  - intros Hc. rewrite collision_loop_round, Hc in Hr. congruence.
  - intros Hc. rewrite collision_loop_round, Hc in Hr.
    pose proof (next_name_longer (snd (Py.splitext c)) c 1 eq_refl) as Hl.
    destruct (fun Hstep H0 =>
                collision_loop_invariant
                  (fun n => length c < length n
                            /\ snd (Py.splitext n) = snd (Py.splitext c))
                  taken (snd (Py.splitext c)) Hstep _ _ _ _ H0 Hr)
      as [[Hlen _] _]; [| |exact Hlen].
    + intros n k [Hn He]. split.
      * pose proof (next_name_longer _ n k He). lia.
      * rewrite next_name_splitext; [reflexivity | apply splitext_ext_shape|].
        exact He.
    + split; [exact Hl|].
      rewrite next_name_splitext;
        [reflexivity | apply splitext_ext_shape | reflexivity].
Qed.

(** A host on which only [a_b.txt] exists. *)
Lemma collision_loop_ends_on_free_name_witness :
  exists r,
    collision_loop 2 (Py.eqb (str "a_b.txt"))
      (snd (Py.splitext (Py.join (str "r") (str "a_b.txt"))))
      (str "a_b.txt") 1 = Some r
    /\ Py.eqb (str "a_b.txt") r = false.
Proof.
  destruct (collision_loop_ends_on_free_name (Py.eqb (str "a_b.txt"))
              [str "a_b.txt"] (str "r") (str "a_b.txt"))
    as (r & sfx & Hr & Hfree & _).
  - intros n Hn. apply eqb_eq in Hn. left. exact Hn.
  - exists r. split; [apply Hr; simpl; lia | exact Hfree].
Defined.


Lemma too_long_component (max_length : Z) (root name : text) :
  ~ In slash name ->
  too_long max_length root name = (max_length <? Py.len name)%Z.
Proof. intros H. unfold too_long. now rewrite basename_join. Qed.

(** What lines 61-95 make of the name of an entry, on any host. *)
Lemma collision_loop_fresh (taken : text -> bool) (max_length : Z)
      (root name : text) (fuel k : nat) (r : text) :
  needs_fix name = true -> too_long max_length root name = false ->
  collision_loop fuel taken
    (snd (Py.splitext (new_name_of max_length name)))
    (new_name_of max_length name) k = Some r ->
  r <> name /\ all_safe r /\ (~ In slash name -> clean_edges r).
Proof.
  intros Hfix Hfit Hr.
  set (c := new_name_of max_length name) in *.
  set (ext := snd (Py.splitext c)) in *.
  assert (ext_shape ext) as Hshape by apply splitext_ext_shape.
  assert (all_safe r) as Hsafe.
  { destruct (fun Hstep H0 =>
                collision_loop_invariant
                  (fun n => all_safe n /\ snd (Py.splitext n) = ext)
                  taken ext Hstep _ _ _ _ H0 Hr) as [[H _] _]; [| |exact H].
    - intros n j [Hn He]. split; [now apply next_name_safe|].
      now rewrite next_name_splitext.
    - split; [apply new_name_safe | reflexivity]. }
  assert (~ In slash name -> clean_edges r /\ hd dot r = hd dot c) as Hclean.
  { intros Hs. rewrite (too_long_component _ _ _ Hs) in Hfit.
    apply Z.ltb_ge in Hfit.
    destruct (new_name_facts max_length name Hfix Hfit) as (Hc & _ & _).
    fold c in Hc.
    pose proof (splitext_ext_last c Hc) as Hlast. fold ext in Hlast.
    destruct (fun Hstep H0 =>
                collision_loop_invariant
                  (fun n => (clean_edges n /\ hd dot n = hd dot c)
                            /\ snd (Py.splitext n) = ext)
                  taken ext Hstep _ _ _ _ H0 Hr) as [[H _] _]; [| |exact H].
    - intros n j [[Hn Hh] He].
      destruct (next_name_clean ext n j Hlast Hn) as [Hc' Hh'].
      split; [split; [exact Hc' | congruence]|].
      now rewrite next_name_splitext.
    - repeat split; apply Hc. }
  split; [|split; [exact Hsafe | intros Hs; apply (Hclean Hs)]].
  intros ->. destruct (has_invalid name) eqn:Hinv.
  - apply has_invalid_false in Hsafe. congruence.
  - pose proof Hinv as Hs. apply has_invalid_false, all_safe_no_slash in Hs.
    destruct (Hclean Hs) as [Hrc Hrh].
    rewrite (too_long_component _ _ _ Hs) in Hfit. apply Z.ltb_ge in Hfit.
    destruct (new_name_facts max_length name Hfix Hfit) as (_ & _ & Hres).
    fold c in Hres.
    unfold needs_fix in Hfix. rewrite Hinv in Hfix. simpl in Hfix.
    apply orb_true_iff in Hfix as [Ht|Hresv].
    + apply has_trailing_true in Ht. apply Ht. now apply strip_fixed_clean.
    + rewrite (Hres Hresv) in Hrh.
      destruct (is_reserved_head name Hresv) as [_ Hal].
      apply alnum_not_underscore in Hal. congruence.
Qed.

(** X11.  For an entry that reaches line 61, on every host on which
    [os.path.exists] holds of finitely many paths ([taken] and [paths] as
    above), the loop of lines 89-95 ends on a name that is never the name
    of the entry, so that line 98 never fires; [os.path.exists] does not
    hold of that name and it has no forbidden character; for a name without
    separator it is not empty and does not start or end with a space or a
    dot. *)
Theorem flagged_entry_gets_fresh_name
        (taken : text -> bool) (paths : list text)
        (max_length : Z) (root name : text) :
  needs_fix name = true -> too_long max_length root name = false ->
  (forall n, taken n = true -> In n paths) ->
  exists r,
    (forall fuel : nat,
        length paths < fuel ->
        collision_loop fuel taken
          (snd (Py.splitext (Py.join root (new_name_of max_length name))))
          (new_name_of max_length name) 1 = Some r)
    /\ r <> name
    /\ taken r = false
    /\ has_invalid r = false
    /\ (~ In slash name -> r <> [] /\ has_trailing r = false).
Proof.
  intros Hfix Hfit Hbound.
  destruct (collision_loop_total taken paths root
              (new_name_of max_length name) Hbound) as [r Hall].
  pose proof (Hall (S (length paths)) (Nat.lt_succ_diag_r _)) as Hr.
  rewrite splitext_join in Hr.
  destruct (collision_loop_fresh taken max_length root name _ _ r
              Hfix Hfit Hr) as (Hneq & Hsafe & Hclean).
  destruct (collision_loop_invariant (fun _ => True) taken
              _ (fun _ _ _ => I) _ _ _ _ I Hr) as [_ Hfree].
  exists r. repeat split; try assumption.
  - now apply has_invalid_false.
  - apply (Hclean H).
  - apply clean_edges_no_trailing, (Hclean H).
Qed.

(** The entry [a:b.txt] on a host on which only [a_b.txt] exists. *)
Lemma flagged_entry_gets_fresh_name_witness :
  exists r,
    collision_loop 2 (Py.eqb (str "a_b.txt"))
      (snd (Py.splitext
              (Py.join (str "r") (new_name_of 255 (str "a:b.txt")))))
      (new_name_of 255 (str "a:b.txt")) 1 = Some r
    /\ r <> str "a:b.txt".
Proof.
  destruct (flagged_entry_gets_fresh_name (Py.eqb (str "a_b.txt"))
              [str "a_b.txt"] 255 (str "r") (str "a:b.txt"))
    as (r & Hr & Hneq & _).
  - reflexivity.
  - reflexivity.
  - intros n Hn. apply eqb_eq in Hn. left. exact Hn.
  - exists r. split; [apply Hr; simpl; lia | exact Hneq].
Defined.

(** X12.  In a live run, an entry that reaches line 61, whose corrected
    name is free and whose rename the host does not refuse, is renamed to
    exactly the corrected name, in its place in the directory and with its
    content; the renamed counter goes up by one. *)
Theorem free_corrected_name_is_used
        (script_name : text) (denied : text -> text -> bool)
        (max_length : Z) (root name : text) (es : listing) (s : run_state) :
  name <> script_name -> too_long max_length root name = false ->
  needs_fix name = true ->
  In name (map fst es) ->
  path_exists es (new_name_of max_length name) = false ->
  denied (Py.join root name)
         (Py.join root (new_name_of max_length name)) = false ->
  exists l1 t l2 s',
    es = l1 ++ (name, t) :: l2
    /\ ~ In name (map fst l1)
    /\ process_entry script_name denied false max_length root name (es, s)
       = Some (l1 ++ (new_name_of max_length name, t) :: l2, s')
    /\ change_count (counts s') = S (change_count (counts s))
    /\ error_count (counts s') = error_count (counts s)
    /\ output s'
       = output s
         ++ [ChangeReport true root name (new_name_of max_length name)
               (has_invalid name) (has_trailing name) (is_reserved name)].
Proof.
  intros Hn Hfit Hfix Hin Hfree Hallow.
  unfold too_long in Hfit. apply Z.ltb_ge in Hfit.
  destruct (process_entry_fix script_name denied false max_length
              root name es s Hn Hfit Hfix) as (r & Hr & _ & _ & E).
  pose proof (free_candidate_is_kept root
                (new_name_of max_length name) es Hfree) as Hc.
  rewrite Hc in Hr. injection Hr as <-.
  destruct (rename_entry_present name (new_name_of max_length name) es Hin)
    as [es' Hren].
  destruct (rename_entry_split _ _ _ _ Hren) as (l1 & t & l2 & Hes & Hl1 & ->).
  exists l1, t, l2. eexists. split; [exact Hes|]. split; [exact Hl1|].
  rewrite E. unfold report_and_rename, os_rename.
  rewrite Hallow, Hren. simpl negb.
  repeat split.
Qed.

(** The entry [a?b] alone in its directory. *)
Lemma free_corrected_name_is_used_witness :
  exists s',
    process_entry the_script allow_all false 255 (str "r") (str "a?b")
      ([(str "a?b", File [])], initial_state)
    = Some ([(str "a_b", File [])], s').
Proof.
  destruct (free_corrected_name_is_used the_script allow_all 255 (str "r")
              (str "a?b") [(str "a?b", File [])] initial_state)
    as (l1 & t & l2 & s' & Hes & _ & E & _).
  - vm_compute. discriminate.
  - reflexivity.
  - reflexivity.
  - left. reflexivity.
  - reflexivity.
  - reflexivity.
  - exists s'. destruct l1 as [|x l1].
    + simpl in Hes. injection Hes as <- <-. exact E.
    + simpl in Hes. injection Hes as _ Hes.
      destruct l1; discriminate.
Defined.

(** ** The counters and the output *)



Section Counters.

Variable script_name : text.
Variable denied : text -> text -> bool.
Variable dry_run : bool.
Variable max_length : Z.

#[local] Abbreviation body :=
  (process_entry script_name denied dry_run max_length).

(** The state after the body, case by case. *)
Lemma process_entry_state (root name : text) (es es' : listing)
      (s s' : run_state) :
  body root name (es, s) = Some (es', s') ->
  let s0 := note_visit root name s in
  (skipped_entry script_name max_length (root, name) = false
   /\ flagged_entry script_name max_length (root, name) = false
   /\ s' = s0)
  \/ (skipped_entry script_name max_length (root, name) = true
      /\ flagged_entry script_name max_length (root, name) = false
      /\ s' = count_skipped (emit (TooLongWarning name) s0))
  \/ (skipped_entry script_name max_length (root, name) = false
      /\ flagged_entry script_name max_length (root, name) = true
      /\ exists new_name,
           new_name <> name /\ has_invalid new_name = false
           /\ let s1 := emit (ChangeReport (negb dry_run) root name new_name
                                (has_invalid name) (has_trailing name)
                                (is_reserved name)) s0 in
              s' = count_change s1
              \/ (dry_run = false
                  /\ s' = count_error (emit (RenameError name) s1))).
Proof.
  intros H s0. unfold skipped_entry, flagged_entry, too_long. simpl.
  destruct (list_eq_dec N.eq_dec name script_name) as [He|Hn].
  { rewrite process_entry_script in H by exact He.
    injection H as _ <-. left. subst name. rewrite eqb_refl. auto. }
  pose proof Hn as Hn'. apply eqb_neq in Hn'. rewrite Hn'. simpl.
  destruct (Z_lt_le_dec max_length
              (Py.len (Py.basename (Py.join root name)))) as [Hl|Hfit].
  { rewrite process_entry_too_long in H by assumption.
    injection H as _ <-. right. left.
    apply Z.ltb_lt in Hl. rewrite Hl. auto. }
  pose proof Hfit as Hfit'. apply Z.ltb_ge in Hfit'. rewrite Hfit'. simpl.
  destruct (needs_fix name) eqn:Hfix.
  2:{ rewrite process_entry_fine in H by assumption.
      injection H as _ <-. left. auto. }
  right. right. repeat split.
  destruct (process_entry_fix script_name denied dry_run max_length
              root name es s Hn Hfit Hfix) as (r & Hr & Hneq & _ & E).
  destruct (resolve_collision_safe max_length root name es r Hr)
    as [Hsafe _].
  exists r. split; [exact Hneq|].
  split; [now apply has_invalid_false|].
  rewrite E in H.
  destruct (report_and_rename_cases denied dry_run root name r es
              (note_visit root name s))
    as [[_ E']|[(_ & es1 & _ & E')|(Hd & _ & E')]];
    rewrite E' in H; injection H as _ <-; auto.
Qed.


Lemma process_entry_tallied (root name : text) (es es' : listing)
      (s s' : run_state) :
  body root name (es, s) = Some (es', s') -> tallied s -> tallied s'.
Proof.
  intros H (H1 & H2 & H3).
  destruct (process_entry_state root name es es' s s' H)
    as [(_ & _ & ->)|[(_ & _ & ->)|(_ & _ & r & _ & _ & [->|[_ ->]])]];
    unfold tallied; simpl; rewrite ?filter_app; simpl;
    rewrite ?length_app; simpl; lia.
Qed.


Lemma process_entry_sound (root name : text) (es es' : listing)
      (s s' : run_state) :
  body root name (es, s) = Some (es', s') ->
  Forall (sound_event dry_run) (output s) ->
  Forall (sound_event dry_run) (output s').
Proof.
  intros H Hs.
  destruct (process_entry_state root name es es' s s' H)
    as [(_ & _ & ->)|[(_ & _ & ->)
                     |(_ & Hf & r & Hneq & Hsafe & [->|[Hd ->]])]];
    simpl; try assumption.
  - apply Forall_app. split; [exact Hs | repeat constructor].
  - apply Forall_app. split; [exact Hs|]. repeat constructor; auto.
    unfold flagged_entry in Hf. simpl in Hf.
    now apply andb_true_iff in Hf as [_ Hf].
  - rewrite <- app_assoc. apply Forall_app. split; [exact Hs|].
    repeat constructor; auto.
    unfold flagged_entry in Hf. simpl in Hf.
    now apply andb_true_iff in Hf as [_ Hf].
Qed.

End Counters.



(** X13.  The summary agrees with the output: the skipped count is the
    number of warnings printed, the renamed and error counts together are
    the number of change blocks, and the error count is the number of
    error lines. *)
Theorem summary_agrees_with_output
        (script_name : text) (denied : text -> text -> bool)
        (dry_run : bool) (max_length : Z) (root_dir : text) (t : node) :
  exists t' s',
    sanitize_ntfs_names script_name denied dry_run max_length root_dir t
    = Some (t', s')
    /\ skipped_count (counts s') = length (filter is_warning (output s'))
    /\ change_count (counts s') + error_count (counts s')
       = length (filter is_report (output s'))
    /\ error_count (counts s') = length (filter is_failure (output s')).
Proof.
  unfold sanitize_ntfs_names.
  destruct (walk_trace script_name denied max_length dry_run t root_dir
              initial_state) as (t' & s' & _ & E & _).
  exists t', s'. split; [exact E|].
  apply (walk_state_invariant script_name denied dry_run max_length tallied
           (fun root name es s es' s' =>
              process_entry_tallied script_name denied dry_run max_length
                root name es es' s s')
           t root_dir initial_state t' s' E).
  repeat split.
Qed.


(** X15.  Every change block of the output names a new name that differs
    from the original and has no forbidden character, and gives at least
    one reason; a dry run marks every block as not applied and prints no
    error line, a live run marks every block as applied. *)
Theorem change_blocks_are_sound
        (script_name : text) (denied : text -> text -> bool)
        (dry_run : bool) (max_length : Z) (root_dir : text) (t : node) :
  exists t' s',
    sanitize_ntfs_names script_name denied dry_run max_length root_dir t
    = Some (t', s')
    /\ Forall (sound_event dry_run) (output s').
Proof.
  unfold sanitize_ntfs_names.
  destruct (walk_trace script_name denied max_length dry_run t root_dir
              initial_state) as (t' & s' & _ & E & _).
  exists t', s'. split; [exact E|].
  apply (walk_state_invariant script_name denied dry_run max_length
           (fun s => Forall (sound_event dry_run) (output s))
           (fun root name es s es' s' =>
              process_entry_sound script_name denied dry_run max_length
                root name es es' s s')
           t root_dir initial_state t' s' E).
  constructor.
Qed.

(** ** What the walk does to the tree *)

Lemma all_dirs_dir (Q : list text -> Prop) (es : listing) :
  all_dirs Q (Dir es)
  <-> Q (map fst es) /\ Forall (fun e => all_dirs Q (snd e)) es.
Proof.
  simpl. apply and_iff_compat_l.
  induction es as [|[n c] l IH]; simpl.
  - split; [constructor | trivial].
  - rewrite IH. split.
    + intros [H1 H2]. now constructor.
    + intros H. inversion H; subst. auto.
Qed.

Lemma listing_names_permutation (es : listing) :
  Permutation (dirs_of es ++ files_of es) (map fst es).
Proof.
  unfold dirs_of, files_of. induction es as [|[n c] l IH]; [constructor|].
  simpl. destruct (is_dir c); simpl.
  - now constructor.
  - eapply perm_trans; [apply Permutation_sym, Permutation_middle|].
    now constructor.
Qed.

Section Tree.

Variable script_name : text.
Variable denied : text -> text -> bool.
Variable dry_run : bool.
Variable max_length : Z.

#[local] Abbreviation body :=
  (process_entry script_name denied dry_run max_length).
#[local] Abbreviation entries :=
  (process_entries script_name denied dry_run max_length).
#[local] Abbreviation walk_in :=
  (walk script_name denied dry_run max_length).


(** What holds of the names of every directory before the walk, and is
    carried over by the inner loop, holds after it. *)
Lemma walk_all_dirs (Q Q' : list text -> Prop) :
  (forall root es0 es s es' s',
      map fst es = map fst es0 -> Q (map fst es0) ->
      entries root (dirs_of es0 ++ files_of es0) (es, s) = Some (es', s') ->
      Q' (map fst es')) ->
  forall t root s t' s',
    all_dirs Q t -> walk_in root t s = Some (t', s') -> all_dirs Q' t'.
Proof.
  intros Hstep.
  induction t as [content|es IH] using node_induction;
    intros root s t' s' Hq H.
  - simpl in H. now injection H as <- _.
  - apply walk_dir_inv in H as (es1 & s1 & es2 & Hd & He & ->).
    apply all_dirs_dir in Hq as [Hq Hch]. apply all_dirs_dir.
    apply descend_inv in Hd as [Hn Hd].
    split; [eapply Hstep; eauto|].
    apply process_entries_snd in He.
    apply (Forall_map snd (all_dirs Q')). rewrite He.
    apply Forall_map.
    clear He Hn Hq.
    induction Hd as [|[n c] [n1 c1] l l1 (sa & sb & Hw) _ IHl];
      [constructor|].
    inversion IH as [|? ? Hc Hl]; subst.
    inversion Hch as [|? ? Hc' Hl']; subst. simpl in *.
    constructor; [eapply Hc; eauto | now apply IHl].
Qed.

Lemma process_entry_unique (root name : text) (es es' : listing)
      (s s' : run_state) :
  body root name (es, s) = Some (es', s') ->
  NoDup (map fst es) -> NoDup (map fst es').
Proof.
  intros H Hnd.
  apply process_entry_listing in H
    as [->|(r & _ & _ & Hfit & Hfix & Hr & Hren)]; [exact Hnd|].
  destruct (resolve_collision_fresh max_length root name es r Hfix Hfit Hr)
    as [_ Hfree].
  apply (rename_entry_names name r es es' Hren Hnd).
  intros Hin. apply path_exists_in in Hin. congruence.
Qed.

Lemma process_entries_unique (root : text) (names : list text) :
  forall es s es' s',
    entries root names (es, s) = Some (es', s') ->
    NoDup (map fst es) -> NoDup (map fst es').
Proof.
  induction names as [|name rest IH]; intros es s es' s' H Hnd.
  - simpl in H. now injection H as <- _.
  - rewrite process_entries_cons in H.
    destruct (body root name (es, s)) as [[es1 s1]|] eqn:E; [|discriminate].
    eapply IH; [exact H|]. eapply process_entry_unique; eauto.
Qed.

End Tree.


(** X17.  On a tree of regular files and directories, without symbolic
    links, as [node] has them, no rename goes to a name that an entry of the
    directory has: in a tree where no directory holds two entries of the
    same name, no directory does after the run.  (Links whose target is
    missing are outside these trees, as for X16.) *)
Theorem run_keeps_names_unique
        (script_name : text) (denied : text -> text -> bool)
        (dry_run : bool) (max_length : Z) (root_dir : text) (t : node) :
  unique_names t ->
  exists t' s',
    sanitize_ntfs_names script_name denied dry_run max_length root_dir t
    = Some (t', s')
    /\ unique_names t'.
Proof.
  intros Hu. unfold sanitize_ntfs_names.
  destruct (walk_trace script_name denied max_length dry_run t root_dir
              initial_state) as (t' & s' & _ & E & _).
  exists t', s'. split; [exact E|].
  refine (walk_all_dirs script_name denied dry_run max_length
            (fun names => NoDup names) (fun names => NoDup names) _
            t root_dir initial_state t' s' Hu E).
  intros root es0 es s es1 s1 Hn Hq He.
  eapply process_entries_unique; [exact He|]. now rewrite Hn.
Qed.

Lemma run_keeps_names_unique_witness :
  exists t' s',
    sanitize_ntfs_names the_script allow_all false 255 (str "r")
      (Dir dir_collision) = Some (t', s')
    /\ unique_names t'.
Proof.
  apply run_keeps_names_unique.
  split; [|simpl; tauto].
  repeat constructor; simpl; intuition discriminate.
Defined.

(** ** A live run on a host that refuses nothing *)


Section Live.

Variable script_name : text.
Variable denied : text -> text -> bool.
Variable max_length : Z.
Hypothesis allowed : forall old new, denied old new = false.

#[local] Abbreviation body :=
  (process_entry script_name denied false max_length).
#[local] Abbreviation entries :=
  (process_entries script_name denied false max_length).
#[local] Abbreviation walk_in :=
  (walk script_name denied false max_length).




End Live.

Ltac concrete_names :=
  repeat match goal with
         | |- _ /\ _ => split
         | |- True => exact I
         | |- NoDup _ => constructor
         | |- Forall _ _ => constructor
         | |- in_scope _ _ _ => unfold in_scope, component
         | |- _ <> _ => discriminate
         | |- ~ In _ _ => simpl; intuition discriminate
         | |- (_ <= _)%Z => vm_compute; discriminate
         | |- _ = false => reflexivity
         end.



(** ** A tree that needs nothing *)

Section Untouched.

Variable script_name : text.
Variable denied : text -> text -> bool.
Variable dry_run : bool.
Variable max_length : Z.

#[local] Abbreviation body :=
  (process_entry script_name denied dry_run max_length).
#[local] Abbreviation entries :=
  (process_entries script_name denied dry_run max_length).
#[local] Abbreviation walk_in :=
  (walk script_name denied dry_run max_length).

Lemma nothing_changed_refl (s : run_state) : nothing_changed s s.
Proof. repeat split. Qed.

Lemma nothing_changed_trans (a b c : run_state) :
  nothing_changed a b -> nothing_changed b c -> nothing_changed a c.
Proof.
  intros (H1 & H2 & H3) (H4 & H5 & H6). repeat split; congruence.
Qed.

Lemma process_entry_untouched (root name : text) (es : listing)
      (s : run_state) :
  needs_fix name = false ->
  exists s', body root name (es, s) = Some (es, s')
             /\ nothing_changed s s'.
Proof.
  intros Hfix.
  destruct (process_entry_trace script_name denied max_length dry_run
              root name es s) as (es' & s' & _ & E & _).
  pose proof (process_entry_listing script_name denied dry_run max_length
                root name es es' s s' E) as [->|(r & _ & _ & _ & H & _)];
    [|congruence].
  exists s'. split; [exact E|].
  destruct (process_entry_state script_name denied dry_run max_length
              root name es es s s' E)
    as [(_ & _ & ->)|[(_ & _ & ->)|(_ & Hf & _)]].
  - repeat split.
  - repeat split. simpl. rewrite filter_app. simpl. apply app_nil_r.
  - unfold flagged_entry in Hf. simpl in Hf.
    apply andb_true_iff in Hf as [_ Hf]. congruence.
Qed.

Lemma process_entries_untouched (root : text) (names : list text) :
  Forall (fun n => needs_fix n = false) names ->
  forall es s,
  exists s', entries root names (es, s) = Some (es, s')
             /\ nothing_changed s s'.
Proof.
  induction 1 as [|name rest Hn _ IH]; intros es s.
  - exists s. split; [reflexivity | apply nothing_changed_refl].
  - destruct (process_entry_untouched root name es s Hn) as (s1 & E1 & H1).
    destruct (IH es s1) as (s2 & E2 & H2).
    exists s2. rewrite process_entries_cons, E1.
    split; [exact E2 | eapply nothing_changed_trans; eauto].
Qed.

Lemma walk_untouched (t : node) :
  every_name (fun n => needs_fix n = false) t ->
  forall root s,
  exists s', walk_in root t s = Some (t, s') /\ nothing_changed s s'.
Proof.
  induction t as [content|es IH] using node_induction; intros Hfine root s.
  - exists s. split; [reflexivity | apply nothing_changed_refl].
  - apply all_dirs_dir in Hfine as [Hnames Hch].
    assert (forall s0,
               exists s1,
                 descend (fun n c => walk_in (Py.join root n) c) es s0
                 = Some (es, s1) /\ nothing_changed s0 s1) as Hsub.
    { clear Hnames. induction IH as [|[n c] l Hc _ IHl]; intros s0.
      - exists s0. split; [reflexivity | apply nothing_changed_refl].
      - inversion Hch as [|? ? Hc' Hl']; subst. simpl in Hc, Hc'.
        destruct (Hc Hc' (Py.join root n) s0) as (s1 & E1 & H1).
        destruct (IHl Hl' s1) as (s2 & E2 & H2).
        exists s2. rewrite descend_cons, E1.
        unfold listing in *. rewrite E2.
        split; [reflexivity | eapply nothing_changed_trans; eauto]. }
    destruct (Hsub s) as (s1 & Ed & H1).
    destruct (process_entries_untouched root (dirs_of es ++ files_of es))
      with (es := es) (s := s1) as (s2 & E2 & H2).
    { eapply Permutation_Forall;
        [apply Permutation_sym, listing_names_permutation | exact Hnames]. }
    exists s2. rewrite walk_dir, Ed. unfold listing in *. rewrite E2.
    split; [reflexivity | eapply nothing_changed_trans; eauto].
Qed.

End Untouched.

(** X19.  A tree in which no name needs a fix is left exactly as it is, in
    a dry run and in a live one: nothing is counted as renamed or failed
    and no change block is printed. *)
Theorem compliant_tree_is_untouched
        (script_name : text) (denied : text -> text -> bool)
        (dry_run : bool) (max_length : Z) (root_dir : text) (t : node) :
  every_name (fun n => needs_fix n = false) t ->
  exists s',
    sanitize_ntfs_names script_name denied dry_run max_length root_dir t
    = Some (t, s')
    /\ change_count (counts s') = 0
    /\ error_count (counts s') = 0
    /\ filter is_report (output s') = [].
Proof.
  intros Hfine. unfold sanitize_ntfs_names.
  destruct (walk_untouched script_name denied dry_run max_length t Hfine
              root_dir initial_state) as (s' & E & H1 & H2 & H3).
  exists s'. auto.
Qed.

Lemma compliant_tree_is_untouched_witness :
  exists s',
    sanitize_ntfs_names the_script deny_all false 255 (str "r") tree_fine
    = Some (tree_fine, s')
    /\ change_count (counts s') = 0.
Proof.
  destruct (compliant_tree_is_untouched the_script deny_all false 255
              (str "r") tree_fine) as (s' & E & H & _).
  - unfold every_name, tree_fine. simpl. concrete_names.
  - exists s'. split; [exact E | exact H].
Defined.
